(** * Seeding pipeline and chat surface of javascript-ai-agent

    A shallow embedding of the seeding script (schema, summary, generation,
    per-record embedding and insertion, connection life cycle) and of the chat
    component's [sendMessage], followed by the properties established about
    them. *)

From stdpp Require Import gmap strings list fin_maps.
From Stdlib Require Import ZArith Ascii.

Set Warnings "-register-all".
Open Scope string_scope.
Open Scope list_scope.

(** ** JavaScript values

    Parsed JSON as the script and the component see it. An object is a finite
    map from property names to values; a missing property reads as
    [undefined], which is [None] of a lookup. Numbers are never inspected by
    the code under study and are kept as integers. *)

Inductive json : Type :=
| JNull
| JBool (b : bool)
| JNum (n : Z)
| JStr (s : string)
| JArr (l : list json)
| JObj (m : gmap string json).

(** ** Schema (zod)

    [z.string()] accepts a string and nothing else; [z.array(z.string())]
    accepts an array all of whose elements are strings. Neither coerces. The
    argument is the value read at a property, [None] when it is absent. *)

Definition z_string (v : option json) : option string :=
  match v with
  | Some (JStr s) => Some s
  | _ => None
  end.

Definition z_array_string (v : option json) : option (list string) :=
  match v with
  | Some (JArr l) => mapM (fun x => z_string (Some x)) l
  | _ => None
  end.

Record FrontendPrinciple : Type := {
  principle_id : string;
  name : string;
  description : string;
  keyConcepts : list string;
  designGuidelines : list string;
  commonPitfalls : list string;
  bestPractices : list string;
  relevantTechnologies : list string;
  notes : string
}.

(** [FrontendPrincipleSchema.parse]: a [z.object] reads each key of its shape
    from the candidate and builds a fresh object from the parsed values; keys
    outside the shape are not carried over. Only a plain object is accepted
    (an array or [null] is not). *)
Definition FrontendPrincipleSchema (candidate : json) : option FrontendPrinciple :=
  match candidate with
  | JObj m =>
      pid ← z_string (m !! "principle_id");
      nm ← z_string (m !! "name");
      desc ← z_string (m !! "description");
      kc ← z_array_string (m !! "keyConcepts");
      dg ← z_array_string (m !! "designGuidelines");
      cp ← z_array_string (m !! "commonPitfalls");
      bp ← z_array_string (m !! "bestPractices");
      rt ← z_array_string (m !! "relevantTechnologies");
      nt ← z_string (m !! "notes");
      Some {| principle_id := pid; name := nm; description := desc;
              keyConcepts := kc; designGuidelines := dg; commonPitfalls := cp;
              bestPractices := bp; relevantTechnologies := rt; notes := nt |}
  | _ => None
  end.

(** The schema handed to the output parser: [z.array(FrontendPrincipleSchema)].
    The array parses only when every element does. *)
Definition parser_schema (v : json) : option (list FrontendPrinciple) :=
  match v with
  | JArr l => mapM FrontendPrincipleSchema l
  | _ => None
  end.

Definition strings_json (l : list string) : json := JArr (JStr <$> l).

(** The JavaScript object that a parsed record is: the operand of the spread
    [{ ...record }]. *)
Definition spread (record : FrontendPrinciple) : gmap string json :=
  <["principle_id" := JStr (principle_id record)]>
  (<["name" := JStr (name record)]>
  (<["description" := JStr (description record)]>
  (<["keyConcepts" := strings_json (keyConcepts record)]>
  (<["designGuidelines" := strings_json (designGuidelines record)]>
  (<["commonPitfalls" := strings_json (commonPitfalls record)]>
  (<["bestPractices" := strings_json (bestPractices record)]>
  (<["relevantTechnologies" := strings_json (relevantTechnologies record)]>
  (<["notes" := JStr (notes record)]> ∅)))))))).

Definition string_fields : list string :=
  ["principle_id"; "name"; "description"; "notes"].

Definition array_fields : list string :=
  ["keyConcepts"; "designGuidelines"; "commonPitfalls"; "bestPractices";
   "relevantTechnologies"].

Definition required_fields : list string := string_fields ++ array_fields.

(** What the specification asks of a candidate's fields, in its own words:
    the field is present and is a string, or present and an array of
    strings. *)
Definition is_string_field (m : gmap string json) (k : string) : Prop :=
  ∃ s, m !! k = Some (JStr s).

Definition is_array_field (m : gmap string json) (k : string) : Prop :=
  ∃ l : list string, m !! k = Some (strings_json l).

Definition well_typed (m : gmap string json) : Prop :=
  Forall (is_string_field m) string_fields ∧
  Forall (is_array_field m) array_fields.

(** ** Summary *)

(** [Array.prototype.join]. *)
Fixpoint join (sep : string) (l : list string) : string :=
  match l with
  | [] => ""
  | x :: rest =>
      match rest with
      | [] => x
      | _ :: _ => x +:+ sep +:+ join sep rest
      end
  end.

(** The value the promise of [createFrontendPrincipleSummary] resolves to; the
    promise never rejects. *)
Definition createFrontendPrincipleSummary (principle : FrontendPrinciple) : string :=
  let basics :=
    name principle +:+ " (" +:+ principle_id principle +:+ "): "
      +:+ description principle in
  let concepts := "Key Concepts: " +:+ join ", " (keyConcepts principle) in
  let guidelines := "Design Guidelines: " +:+ join ", " (designGuidelines principle) in
  let pitfalls := "Common Pitfalls: " +:+ join ", " (commonPitfalls principle) in
  let practices := "Best Practices: " +:+ join ", " (bestPractices principle) in
  let technologies := "Technologies: " +:+ join ", " (relevantTechnologies principle) in
  basics +:+ ". " +:+ concepts +:+ ". " +:+ guidelines +:+ ". " +:+ pitfalls
    +:+ ". " +:+ practices +:+ ". " +:+ technologies +:+ ". Notes: "
    +:+ notes principle.

(** The items of [items] occur in [s] one after the other, in this order. *)
Fixpoint occurs_in_order (items : list string) (s : string) : Prop :=
  match items with
  | [] => True
  | x :: rest => ∃ pre post, s = pre +:+ x +:+ post ∧ occurs_in_order rest post
  end.

(** The layout the specification describes: name, id and description, then
    each list field as a label and its comma-joined items, then the notes. *)
Definition labelled (label : string) (items : list string) : string :=
  label +:+ ": " +:+ join ", " items.

Definition spec_summary (r : FrontendPrinciple) : string :=
  String.concat ". "
    [ name r +:+ " (" +:+ principle_id r +:+ "): " +:+ description r;
      labelled "Key Concepts" (keyConcepts r);
      labelled "Design Guidelines" (designGuidelines r);
      labelled "Common Pitfalls" (commonPitfalls r);
      labelled "Best Practices" (bestPractices r);
      labelled "Technologies" (relevantTechnologies r);
      "Notes: " +:+ notes r ].

Definition example_record : FrontendPrinciple :=
  {| principle_id := "p1"; name := "Consistency"; description := "...";
     keyConcepts := ["A"; "B"]; designGuidelines := ["G1"];
     commonPitfalls := []; bestPractices := ["BP1"];
     relevantTechnologies := ["Tech1"]; notes := "n" |}.

(** ** Chat component

    The state of [ChatApp] and one call of [sendMessage], given what the
    network does with the request. *)

Inductive Sender : Type := user | agent.

(** [text] is typed [string] in the interface, but the agent's text is read
    from untyped response data: [None] is [undefined]. *)
Record ChatMessage : Type := {
  sender : Sender;
  text : option json
}.

(** [threadId] is [null] ([None]) until the backend supplies one. *)
Record ChatState : Type := {
  messages : list ChatMessage;
  input : string;
  threadId : option json;
  isLoading : bool
}.

(** What [fetch] and [response.json()] do: [fetch] rejects (network failure),
    or it resolves with a status and a body; [fetch] resolves on every status,
    2xx or not. The body is [None] when [response.json()] rejects because the
    body is not JSON. *)
Inductive FetchOutcome : Type :=
| FetchRejects
| FetchResolves (status : Z) (body : option json).

(** After the call the component is still mounted with some state, or an
    updater has thrown while React applied it, or the new transcript could
    not be rendered. Either error is raised in rendering, outside the [try]
    of [sendMessage]. *)
Inductive Session : Type :=
| Alive (st : ChatState)
| RenderError.

(** *** White space

    A string holds the UTF-8 encoding of a text. The white space that
    [String.prototype.trim] strips is the code points of WhiteSpace and
    LineTerminator: U+0009 to U+000D and U+0020 in one byte, U+00A0 in two,
    and U+1680, U+2000 to U+200A, U+2028, U+2029, U+202F, U+205F, U+3000 and
    U+FEFF in three. *)

Definition is_space (c : Ascii.ascii) : bool :=
  let n := nat_of_ascii c in
  (Nat.leb 9 n && Nat.leb n 13) || Nat.eqb n 32.

(** U+00A0 is the bytes C2 A0. *)
Definition is_nbsp (a b : Ascii.ascii) : bool :=
  Nat.eqb (nat_of_ascii a) 194 && Nat.eqb (nat_of_ascii b) 160.

(** The white space of three bytes: E1 9A 80; E2 80 80 to E2 80 8A, E2 80 A8,
    E2 80 A9, E2 80 AF; E2 81 9F; E3 80 80; EF BB BF. *)
Definition is_wide_space (a b c : Ascii.ascii) : bool :=
  let x := nat_of_ascii a in
  let y := nat_of_ascii b in
  let z := nat_of_ascii c in
  (Nat.eqb x 225 && Nat.eqb y 154 && Nat.eqb z 128) ||
  (Nat.eqb x 226 && Nat.eqb y 128 &&
     ((Nat.leb 128 z && Nat.leb z 138) || Nat.eqb z 168 || Nat.eqb z 169 ||
      Nat.eqb z 175)) ||
  (Nat.eqb x 226 && Nat.eqb y 129 && Nat.eqb z 159) ||
  (Nat.eqb x 227 && Nat.eqb y 128 && Nat.eqb z 128) ||
  (Nat.eqb x 239 && Nat.eqb y 187 && Nat.eqb z 191).

(** The text after one white space code point at its start, if it starts
    with one. *)
Definition skip_space (s : string) : option string :=
  match s with
  | EmptyString => None
  | String a rest =>
      if is_space a then Some rest
      else
        match rest with
        | EmptyString => None
        | String b rest' =>
            if is_nbsp a b then Some rest'
            else
              match rest' with
              | EmptyString => None
              | String c rest'' =>
                  if is_wide_space a b c then Some rest'' else None
              end
        end
  end.

(** The text is white space from start to end. *)
Fixpoint all_space (s : string) : bool :=
  match s with
  | EmptyString => true
  | String a rest =>
      if is_space a then all_space rest
      else
        match rest with
        | EmptyString => false
        | String b rest' =>
            if is_nbsp a b then all_space rest'
            else
              match rest' with
              | EmptyString => false
              | String c rest'' => is_wide_space a b c && all_space rest''
              end
        end
  end.

Fixpoint trimStart (s : string) : string :=
  match s with
  | EmptyString => EmptyString
  | String a rest =>
      if is_space a then trimStart rest
      else
        match rest with
        | EmptyString => s
        | String b rest' =>
            if is_nbsp a b then trimStart rest'
            else
              match rest' with
              | EmptyString => s
              | String c rest'' =>
                  if is_wide_space a b c then trimStart rest'' else s
              end
        end
  end.

(** The text without the longest run of white space at its end. *)
Fixpoint trimEnd (s : string) : string :=
  match s with
  | EmptyString => EmptyString
  | String c rest => if all_space s then EmptyString else String c (trimEnd rest)
  end.

(** [String.prototype.trim]. *)
Definition trim (s : string) : string := trimEnd (trimStart s).

(** JavaScript truthiness of a value that may be [undefined]. *)
Definition truthy (v : option json) : bool :=
  match v with
  | None => false
  | Some JNull => false
  | Some (JBool b) => b
  | Some (JNum n) => negb (n =? 0)%Z
  | Some (JStr s) => negb (String.eqb s "")
  | Some (JArr _) => true
  | Some (JObj _) => true
  end.

(** Reading property [threadId] or [response] of the response data: a
    [TypeError] on [null] (the outer [None]), the property of an object, and
    [undefined] on every other value. *)
Definition get_prop (data : json) (k : string) : option (option json) :=
  match data with
  | JNull => None
  | JObj m => Some (m !! k)
  | _ => Some None
  end.

Definition fallback_message : ChatMessage :=
  {| sender := agent; text := Some (JStr "Sorry, there was an error.") |}.

Definition append_message (msg : ChatMessage) (st : ChatState) : ChatState :=
  {| messages := messages st ++ [msg]; input := input st;
     threadId := threadId st; isLoading := isLoading st |}.

Definition setThreadId (tid : option json) (st : ChatState) : ChatState :=
  {| messages := messages st; input := input st;
     threadId := tid; isLoading := isLoading st |}.

Definition setIsLoading (b : bool) (st : ChatState) : ChatState :=
  {| messages := messages st; input := input st;
     threadId := threadId st; isLoading := b |}.

(** The [catch] block followed by the [finally] block. *)
Definition on_error (st : ChatState) : Session :=
  Alive (setIsLoading false (append_message fallback_message st)).

(** What React can render as the child [{msg.text}]: a string or a number,
    nothing at all for [undefined], [null] and booleans, and an array of such
    children. A plain object is not a valid child; rendering it throws. *)
Fixpoint renderable_json (v : json) : bool :=
  match v with
  | JObj _ => false
  | JArr l => forallb renderable_json l
  | _ => true
  end.

Definition renderable (v : option json) : bool :=
  match v with
  | None => true
  | Some j => renderable_json j
  end.

(** The updater that appends the agent's reply, followed by [finally] and by
    the rendering of the new transcript. The updater reads [data.response]
    when React runs it. *)
Definition append_reply (data : json) (st : ChatState) : Session :=
  match get_prop data "response" with
  | None => RenderError
  | Some reply =>
      if renderable reply then
        Alive (setIsLoading false
                 (append_message {| sender := agent; text := reply |} st))
      else RenderError
  end.

Definition sendMessage (st : ChatState) (net : FetchOutcome) : Session :=
  let trimmedMessage := trim (input st) in
  if String.eqb trimmedMessage "" then Alive st
  else
    let st1 :=
      {| messages := messages st ++
                     [{| sender := user; text := Some (JStr trimmedMessage) |}];
         input := ""; threadId := threadId st; isLoading := true |} in
    match net with
    | FetchRejects => on_error st1
    | FetchResolves _ None => on_error st1
    | FetchResolves _ (Some data) =>
        if truthy (threadId st) then append_reply data st1
        else
          match get_prop data "threadId" with
          | None => on_error st1
          | Some tid =>
              append_reply data (if truthy tid then setThreadId tid st1 else st1)
          end
    end.

(** The send button is enabled and the text field accepts input. The field is
    never disabled; the button is disabled while [isLoading]. *)
Definition usable (st : ChatState) : Prop := isLoading st = false.

Definition non_2xx (status : Z) : Prop := (status < 200 ∨ 300 ≤ status)%Z.

Definition chatting : ChatState :=
  {| messages := [ {| sender := user; text := Some (JStr "hi") |};
                   {| sender := agent; text := Some (JStr "hello") |} ];
     input := "what is consistency? ";
     threadId := Some (JStr "t-1");
     isLoading := false |}.

Definition error_body : json := JObj {[ "error" := JStr "Internal server error" ]}.

(** ** Seeding script: the world it runs in

    A stored document is a flat object of properties, a [gmap string json];
    the collection is the list of its documents in insertion order. *)

(** The errors a run can meet, by the call that throws. *)
Inductive SeedError : Type :=
| ConnectError
| PingError
| DeleteError
| ModelError
| OutputParserException
| EmbeddingError
| InsertError.

(** What a run does to the outside, in the order it does it. [EvEmbed] and
    [EvInsertMany] are calls, whether they succeed or not. *)
Inductive Event : Type :=
| EvConnect
| EvPing
| EvDeleteMany
| EvInvoke (prompt : string)
| EvEmbed (text : string)
| EvInsertMany (doc : gmap string json)
| EvClose
| ConsoleLog (msg : string) (args : list (option json))
| ConsoleError (msg : string) (e : SeedError).

(** The outside of one run: whether the store answers, what the model
    returns for a prompt, what the embedding provider returns for the [i]-th
    record's text ([None] when the call throws), and whether the [i]-th
    insert goes through. *)
Record World : Type := {
  connect_ok : bool;
  ping_ok : bool;
  deleteMany_ok : bool;
  llm_invoke : string → option string;
  embedDocuments : nat → string → option (list Z);
  insertMany_ok : nat → bool
}.

(** The collection [frontend_db.principles], the client's connection and the
    events so far. *)
Record Run : Type := {
  collection : list (gmap string json);
  connected : bool;
  events : list Event
}.

Definition start (pre : list (gmap string json)) : Run :=
  {| collection := pre; connected := false; events := [] |}.

(** An asynchronous computation: it finishes with an error (a rejected
    promise, a [throw]) or a value, and a new state. *)
Definition M (A : Type) : Type := Run → (SeedError + A) * Run.

#[global] Instance M_ret : MRet M := λ A (a : A) (s : Run), (inr a, s).

#[global] Instance M_bind : MBind M := λ A B (f : A → M B) (m : M A) (s : Run),
  match m s with
  | (inl e, s') => (inl e, s')
  | (inr a, s') => f a s'
  end.

Definition throw {A : Type} (e : SeedError) : M A := λ s, (inl e, s).

Definition emit (ev : Event) : M unit := λ s,
  (inr tt, {| collection := collection s; connected := connected s;
              events := events s ++ [ev] |}).

Definition set_connected (b : bool) : M unit := λ s,
  (inr tt, {| collection := collection s; connected := b; events := events s |}).

Definition set_collection
    (f : list (gmap string json) → list (gmap string json)) : M unit := λ s,
  (inr tt, {| collection := f (collection s); connected := connected s;
              events := events s |}).

(** [try { body } catch (error) { handler error } finally { fin }]. *)
Definition try_catch_finally {A : Type}
    (body : M A) (handler : SeedError → M A) (fin : M unit) : M A := λ s,
  let '(r, s1) := body s in
  let '(r', s2) :=
    match r with
    | inl e => handler e s1
    | inr a => (inr a, s1)
    end in
  match fin s2 with
  | (inl e, s3) => (inl e, s3)
  | (inr _, s3) => (r', s3)
  end.

(** [for (const x of l) { body x }], the body also given the position. *)
Fixpoint for_of {A : Type} (body : nat → A → M unit) (i : nat) (l : list A) : M unit :=
  match l with
  | [] => mret tt
  | x :: rest => body i x ;; for_of body (S i) rest
  end.

(** *** Store client *)

Definition connect (w : World) : M unit :=
  emit EvConnect ;;
  if connect_ok w then set_connected true else throw ConnectError.

Definition ping (w : World) : M unit :=
  emit EvPing ;;
  if ping_ok w then mret tt else throw PingError.

(** [collection.deleteMany({})]: every document goes, or the call fails and
    none does. *)
Definition deleteMany (w : World) : M unit :=
  emit EvDeleteMany ;;
  if deleteMany_ok w then set_collection (λ _, []) else throw DeleteError.

(** [client.close()] settles without an error. *)
Definition close : M unit :=
  emit EvClose ;; set_connected false.

(** *** Vector store

    [MongoDBAtlasVectorSearch.fromDocuments([doc], embeddings, config)]
    embeds the page content and inserts one object made of the text under
    [textKey], the vector under [embeddingKey] and the metadata spread after
    them, so that a metadata property of the same name would win. *)

Record Doc : Type := {
  pageContent : string;
  metadata : gmap string json
}.

(** A vector as it is stored; its components are kept as integers, like
    every number here. *)
Definition vector_json (v : list Z) : json := JArr (JNum <$> v).

Definition stored_object (textKey embeddingKey : string)
    (d : Doc) (embedding : list Z) : gmap string json :=
  metadata d ∪
  <[embeddingKey := vector_json embedding]> (<[textKey := JStr (pageContent d)]> ∅).

Definition fromDocuments (w : World) (textKey embeddingKey : string)
    (i : nat) (d : Doc) : M unit :=
  emit (EvEmbed (pageContent d)) ;;
  match embedDocuments w i (pageContent d) with
  | None => throw EmbeddingError
  | Some v =>
      let obj := stored_object textKey embeddingKey d v in
      emit (EvInsertMany obj) ;;
      if insertMany_ok w i then set_collection (λ c, c ++ [obj])
      else throw InsertError
  end.

Definition LF : string := String "010" "".

Definition instruction : string :=
  "You are a helpful assistant that generates data about frontend design principles. Generate 10 fictional records of frontend principles. Each record should include the following fields: principle_id, name, description, keyConcepts, designGuidelines, commonPitfalls, bestPractices, relevantTechnologies, and notes. Ensure variety in the data and realistic values.".

(** The document a record becomes before it is embedded, and the object that
    is stored for it once its vector is known. *)
Definition with_summary (record : FrontendPrinciple) : Doc :=
  {| pageContent := createFrontendPrincipleSummary record;
     metadata := spread record |}.

Definition stored (record : FrontendPrinciple) (v : list Z) : gmap string json :=
  stored_object "embedding_text" "embedding" (with_summary record) v.

(** What the specification expects of two append-mode runs: everything that
    was there, then the first run's writes, then the second's. *)
Definition spec_append_twice
    (pre w1 w2 : list (gmap string json)) : list (gmap string json) :=
  pre ++ w1 ++ w2.

(** The body of the loop over [recordsWithSummaries], for the record at
    position [i]. *)
Definition save_record (w : World) (i : nat) (record : Doc) : M unit :=
  fromDocuments w "embedding_text" "embedding" i record ;;
  emit (ConsoleLog "Successfully processed & saved record:"
          [metadata record !! "principle_id"]).

(** *** Reading a run *)

(** The state after further documents were stored and further events
    happened. *)
Definition extend (s : Run) (docs : list (gmap string json)) (es : list Event) : Run :=
  {| collection := collection s ++ docs; connected := connected s;
     events := events s ++ es |}.

(** What the [catch] and [finally] blocks of [seedDatabase] make of the
    outcome of the [try] block. *)
Definition settle (p : (SeedError + unit) * Run) : (SeedError + unit) * Run :=
  match p with
  | (inl e, s) =>
      (inr tt, {| collection := collection s; connected := false;
                  events := events s ++
                            [ConsoleError "Error seeding database:" e; EvClose] |})
  | (inr _, s) =>
      (inr tt, {| collection := collection s; connected := false;
                  events := events s ++ [EvClose] |})
  end.

Definition is_close (ev : Event) : bool :=
  match ev with EvClose => true | _ => false end.

Definition is_embed (ev : Event) : bool :=
  match ev with EvEmbed _ => true | _ => false end.

Definition is_insert (ev : Event) : bool :=
  match ev with EvInsertMany _ => true | _ => false end.

Definition is_console_error (ev : Event) : bool :=
  match ev with ConsoleError _ _ => true | _ => false end.

(** The stored vector of [d] is what the embedding provider returned for the
    stored text of [d], and that text is the summary of the record whose
    properties [d] carries. *)
Definition paired (w : World) (d : gmap string json) : Prop :=
  ∃ (i : nat) (r : FrontendPrinciple) (v : list Z),
    d !! "embedding_text" = Some (JStr (createFrontendPrincipleSummary r)) ∧
    d !! "embedding" = Some (vector_json v) ∧
    embedDocuments w i (createFrontendPrincipleSummary r) = Some v ∧
    spread r ⊆ d.

(** [doc] is the object stored for some record [r] with the vector that the
    embedding provider returned for the summary of [r], and its insertion is
    among the events [es]. *)
Definition written_by (w : World) (es : list Event) (doc : gmap string json) : Prop :=
  EvInsertMany doc ∈ es ∧
  ∃ (j : nat) (r : FrontendPrinciple) (v : list Z),
    embedDocuments w j (createFrontendPrincipleSummary r) = Some v ∧
    doc = stored r v.

(** *** Stubs: a model, a parser and an embedding provider for examples *)

Definition with_id (id : string) : FrontendPrinciple :=
  {| principle_id := id; name := "Consistency"; description := "...";
     keyConcepts := ["A"; "B"]; designGuidelines := ["G1"];
     commonPitfalls := []; bestPractices := ["BP1"];
     relevantTechnologies := ["Tech1"]; notes := "n" |}.

Definition three_records : list FrontendPrinciple :=
  [with_id "p1"; with_id "p2"; with_id "p3"].

(** A candidate with a number where [name] should be a string. *)
Definition number_as_name : json :=
  JObj (<["name" := JNum 7]> (spread (with_id "p2"))).

(** A candidate with every required field and one more. *)
Definition with_extra_key : gmap string json :=
  <["author" := JStr "model"]> (spread (with_id "p1")).

Definition stub_format_instructions : string :=
  "Return a JSON array of objects.".

(** The stub parser knows four replies by name. *)
Definition stub_json_of_text (reply : string) : option json :=
  if String.eqb reply "three records" then
    Some (JArr ((λ r, JObj (spread r)) <$> three_records))
  else if String.eqb reply "no records" then Some (JArr [])
  else if String.eqb reply "one good, one bad" then
    Some (JArr [JObj (spread (with_id "p1")); number_as_name])
  else None.

Fixpoint code_sum (t : string) : Z :=
  match t with
  | EmptyString => 0
  | String c rest => Z.of_nat (nat_of_ascii c) + code_sum rest
  end.

(** A hash of the text: its length and the sum of its character codes. *)
Definition hash (t : string) : list Z :=
  [Z.of_nat (String.length t); code_sum t].

Definition replying (reply : option string) : World :=
  {| connect_ok := true; ping_ok := true; deleteMany_ok := true;
     llm_invoke := λ _, reply;
     embedDocuments := λ _ t, Some (hash t);
     insertMany_ok := λ _, true |}.

(** As [replying], but the embedding call for the record at position [k]
    throws. *)
Definition failing_at (k : nat) (reply : option string) : World :=
  {| connect_ok := true; ping_ok := true; deleteMany_ok := true;
     llm_invoke := λ _, reply;
     embedDocuments := λ i t, if Nat.eqb i k then None else Some (hash t);
     insertMany_ok := λ _, true |}.

Definition unrelated : gmap string json := {[ "title" := JStr "unrelated" ]}.

(** ** The chat component in use

    The handlers around [sendMessage]: typing into the field, a key press in
    the field and a click on the send button. A request that an event starts
    is played to its end before the next event, with the given outcome. *)

Definition initial : ChatState :=
  {| messages := []; input := ""; threadId := None; isLoading := false |}.

Definition setInput (value : string) (st : ChatState) : ChatState :=
  {| messages := messages st; input := value;
     threadId := threadId st; isLoading := isLoading st |}.

Inductive UIEvent : Type :=
| Change (value : string)
| KeyDown (key : string) (net : FetchOutcome)
| Click (net : FetchOutcome).

(** [handleKeyDown] sends on Enter only; the button is disabled while
    [isLoading]. *)
Definition handle (st : ChatState) (ev : UIEvent) : Session :=
  match ev with
  | Change value => Alive (setInput value st)
  | KeyDown key net =>
      if String.eqb key "Enter" then sendMessage st net else Alive st
  | Click net => if isLoading st then Alive st else sendMessage st net
  end.

Fixpoint interact (st : ChatState) (evs : list UIEvent) : Session :=
  match evs with
  | [] => Alive st
  | ev :: rest =>
      match handle st ev with
      | Alive st' => interact st' rest
      | RenderError => RenderError
      end
  end.

(** The text starts with a white space code point. *)
Definition head_is_space (s : string) : bool :=
  match skip_space s with
  | Some _ => true
  | None => false
  end.

(** The text is one white space code point. *)
Definition is_one_space (s : string) : bool :=
  match skip_space s with
  | Some EmptyString => true
  | _ => false
  end.

(** The text ends with a white space code point. *)
Fixpoint last_is_space (s : string) : bool :=
  match s with
  | EmptyString => false
  | String _ rest => is_one_space s || last_is_space rest
  end.

(** A text as [sendMessage] sends it: not empty, no white space at either
    end. *)
Definition trimmed (s : string) : Prop :=
  s ≠ "" ∧ head_is_space s = false ∧ last_is_space s = false.

(** A transcript of turns: a user's message with a trimmed text, then the
    agent's message, and so on. *)
Fixpoint turns (ms : list ChatMessage) : Prop :=
  match ms with
  | [] => True
  | u :: rest =>
      match rest with
      | [] => False
      | a :: rest' =>
          sender u = user ∧ (∃ t, text u = Some (JStr t) ∧ trimmed t) ∧
          sender a = agent ∧ turns rest'
      end
  end.

(** ** Server start

    [startServer] of the server's entry point, over the same store client:
    it connects and pings, and on an error logs it and ends the process with
    [process.exit(1)]. *)

Inductive ServerStart : Type :=
| Serving
| Exited (code : Z).

Definition startServer (w : World) (s : Run) : ServerStart * Run :=
  match (connect w ;; ping w ;;
         emit (ConsoleLog "Connected to MongoDB 🖲️" [])) s with
  | (inr _, s') => (Serving, s')
  | (inl error, s') =>
      (Exited 1,
       (emit (ConsoleError "Error connecting to MongoDB 😡" error) s').2)
  end.

(** *** More ways to read a run *)

Definition is_invoke (ev : Event) : bool :=
  match ev with EvInvoke _ => true | _ => false end.

Definition is_delete (ev : Event) : bool :=
  match ev with EvDeleteMany => true | _ => false end.

(** The ids the loop logged as saved, in order. *)
Definition saved_ids (es : list Event) : list (option json) :=
  List.flat_map
    (λ ev, match ev with
           | ConsoleLog msg args =>
               if String.eqb msg "Successfully processed & saved record:"
               then args else []
           | _ => []
           end)
    es.

(** A batch of records as the JSON array a model would reply with. *)
Definition batch_json (rs : list FrontendPrinciple) : json :=
  JArr ((λ r, JObj (spread r)) <$> rs).

(** Two candidates that agree on every field of the schema. *)
Definition same_fields (m1 m2 : gmap string json) : Prop :=
  ∀ k, k ∈ required_fields → m1 !! k = m2 !! k.

(** The events the loop over the records produces: the embedding and
    insertion calls and the line logged for a saved record. *)
Definition loop_event (ev : Event) : bool :=
  match ev with
  | EvEmbed _ => true
  | EvInsertMany _ => true
  | ConsoleLog msg _ => String.eqb msg "Successfully processed & saved record:"
  | _ => false
  end.

(** The line that ends a run without an error. *)
Definition is_completed (ev : Event) : bool :=
  match ev with
  | ConsoleLog msg _ => String.eqb msg "Database seeding completed"
  | _ => false
  end.

Definition record_id (r : FrontendPrinciple) : option json :=
  Some (JStr (principle_id r)).

(** The documents of the insertion calls that went through, in the order of
    the calls: the call number [k] of a run, counted from 0, goes through
    when the store lets the insertion at position [k] through. *)
Fixpoint successful_writes (w : World) (k : nat) (es : list Event) :
    list (gmap string json) :=
  match es with
  | [] => []
  | EvInsertMany doc :: rest =>
      (if insertMany_ok w k then [doc] else []) ++ successful_writes w (S k) rest
  | _ :: rest => successful_writes w k rest
  end.

(** How many of the events before the loop a run gets to: it stops at the
    first of the connection, the ping and the deletion that fails. *)
Definition reached (w : World) : nat :=
  if connect_ok w then
    if ping_ok w then
      if deleteMany_ok w then 6 else 4
    else 2
  else 1.

(** A stored document as the store returns it, with the [_id] it added. *)
Definition with_object_id : gmap string json :=
  <["_id" := JStr "6650f0a1"]> (stored (with_id "p1") [1; 2]%Z).

(** The text of one no-break space, U+00A0. *)
Definition no_break_space : string := String "194" (String "160" "").

(** The body of a reply whose [response] is an object. *)
Definition object_reply : json :=
  JObj {[ "response" := JObj {[ "text" := JStr "Use one style." ]} ]}.

(** A world whose store does not answer. *)
Definition store_down : World :=
  {| connect_ok := false; ping_ok := true; deleteMany_ok := true;
     llm_invoke := λ _, Some "three records";
     embedDocuments := λ _ t, Some (hash t);
     insertMany_ok := λ _, true |}.

(** The body of a reply that carries a thread id. *)
Definition reply_fields : gmap string json :=
  <["threadId" := JStr "t-2"]> {[ "response" := JStr "Use one style." ]}.

(** A fresh component with a question typed into the field. *)
Definition typing : ChatState := setInput " why? " initial.

Section Pipeline.

Set Default Proof Using "Type".

(** The output parser's contribution, a library's: the format instructions
    it derives from the schema, and the step of [parser.parse] that turns
    the model's text into a JSON value (fence stripping and [JSON.parse]),
    [None] when the text is not JSON. *)
Variable format_instructions : string.
Variable json_of_text : string → option json.

Definition prompt : string :=
  instruction +:+ LF +:+ LF +:+ format_instructions.

(** [parser.parse]: any failure is rethrown as an [OutputParserException]. *)
Definition parser_parse (text : string) : M (list FrontendPrinciple) :=
  match json_of_text text ≫= parser_schema with
  | None => throw OutputParserException
  | Some records => mret records
  end.

Definition generateSyntheticData (w : World) : M (list FrontendPrinciple) :=
  emit (ConsoleLog "Generating synthetic frontend principles data..." []) ;;
  emit (EvInvoke prompt) ;;
  match llm_invoke w prompt with
  | None => throw ModelError
  | Some content => parser_parse content
  end.

(** The [try] block of [seedDatabase]. *)
Definition seed_body (w : World) : M unit :=
  connect w ;;
  ping w ;;
  emit (ConsoleLog "Pinged your deployment. You successfully connected to MongoDB!" []) ;;
  deleteMany w ;;
  syntheticData ← generateSyntheticData w;
  let recordsWithSummaries := with_summary <$> syntheticData in
  for_of (save_record w) 0 recordsWithSummaries ;;
  emit (ConsoleLog "Database seeding completed" []).

Definition seedDatabase (w : World) : M unit :=
  try_catch_finally
    (seed_body w)
    (λ error, emit (ConsoleError "Error seeding database:" error))
    close.

(** One run of the script against a collection holding [pre]. *)
Definition seed (w : World) (pre : list (gmap string json)) : (SeedError + unit) * Run :=
  seedDatabase w (start pre).

(** The model's reply does not parse: it is not JSON, or the JSON is not an
    array, or some element of the array is not a valid record. *)
Definition unparseable (text : string) : Prop :=
  json_of_text text = None ∨
  ∃ j, json_of_text text = Some j ∧
       ((∀ l, j ≠ JArr l) ∨
        ∃ l, j = JArr l ∧ Exists (λ c, FrontendPrincipleSchema c = None) l).

(** The events of a run up to and including the call of the model. *)
Definition preamble : list Event :=
  [ EvConnect; EvPing;
    ConsoleLog "Pinged your deployment. You successfully connected to MongoDB!" [];
    EvDeleteMany;
    ConsoleLog "Generating synthetic frontend principles data..." [];
    EvInvoke prompt ].

(** Unfolds the operations of [M] in the goal. *)
Ltac unfold_m :=
  unfold close, emit, throw, set_connected, set_collection,
    mbind, mret, M_bind, M_ret;
  cbn.

(** ** Schema *)

Lemma z_string_Some (v : option json) (s : string) :
  z_string v = Some s ↔ v = Some (JStr s).
Proof.
  split.
  - destruct v as [[]|]; simpl; congruence.
  - intros ->. reflexivity.
Qed.

Lemma mapM_z_string (js : list json) (l : list string) :
  mapM (λ x, z_string (Some x)) js = Some l ↔ js = JStr <$> l.
Proof.
  rewrite mapM_Some. split.
  - induction 1 as [|j s js l Hj _ IH]; [reflexivity|].
    apply z_string_Some in Hj. injection Hj as ->. rewrite fmap_cons. by f_equal.
  - intros ->. induction l; constructor; auto.
Qed.

Lemma z_array_string_Some (v : option json) (l : list string) :
  z_array_string v = Some l ↔ v = Some (strings_json l).
Proof.
  unfold strings_json. split.
  - destruct v as [[]|]; try discriminate.
    intros H. change (mapM (λ x, z_string (Some x)) l0 = Some l) in H.
    apply mapM_z_string in H. by subst.
  - intros ->. simpl. by apply mapM_z_string.
Qed.

Lemma schema_Some (m : gmap string json) (r : FrontendPrinciple) :
  FrontendPrincipleSchema (JObj m) = Some r ↔
  m !! "principle_id" = Some (JStr (principle_id r)) ∧
  m !! "name" = Some (JStr (name r)) ∧
  m !! "description" = Some (JStr (description r)) ∧
  m !! "keyConcepts" = Some (strings_json (keyConcepts r)) ∧
  m !! "designGuidelines" = Some (strings_json (designGuidelines r)) ∧
  m !! "commonPitfalls" = Some (strings_json (commonPitfalls r)) ∧
  m !! "bestPractices" = Some (strings_json (bestPractices r)) ∧
  m !! "relevantTechnologies" = Some (strings_json (relevantTechnologies r)) ∧
  m !! "notes" = Some (JStr (notes r)).
Proof.
  rewrite <- !z_string_Some, <- !z_array_string_Some. simpl. split.
  - intros H.
    repeat match type of H with
    | (?o ≫= _) = Some _ => destruct o eqn:?; simpl in H; [|discriminate]
    end.
    injection H as <-. simpl. repeat split; assumption.
  - intros (-> & -> & -> & -> & -> & -> & -> & -> & ->). by destruct r.
Qed.

Lemma schema_spread (r : FrontendPrinciple) :
  FrontendPrincipleSchema (JObj (spread r)) = Some r.
Proof. apply schema_Some. unfold spread. by simplify_map_eq. Qed.

Lemma spread_dom (r : FrontendPrinciple) :
  dom (spread r) = list_to_set required_fields.
Proof. unfold spread. rewrite !dom_insert_L, dom_empty_L. set_solver. Qed.

Lemma spread_lookup (r : FrontendPrinciple) (k : string) (v : json) :
  spread r !! k = Some v → k ∈ required_fields.
Proof.
  intros H. assert (k ∈ dom (spread r)) as Hk by (apply elem_of_dom; eauto).
  rewrite spread_dom in Hk. set_solver.
Qed.

Lemma well_typed_iff (m : gmap string json) :
  well_typed m ↔ ∃ r, FrontendPrincipleSchema (JObj m) = Some r.
Proof.
  unfold well_typed, string_fields, array_fields, is_string_field, is_array_field.
  rewrite !Forall_cons, !Forall_nil. split.
  - intros (([pid ?] & [nm ?] & [d ?] & [nt ?] & _) &
            ([kc ?] & [dg ?] & [cp ?] & [bp ?] & [rt ?] & _)).
    exists {| principle_id := pid; name := nm; description := d;
              keyConcepts := kc; designGuidelines := dg; commonPitfalls := cp;
              bestPractices := bp; relevantTechnologies := rt; notes := nt |}.
    apply schema_Some. simpl. repeat split; assumption.
  - intros [r Hr]. apply schema_Some in Hr.
    destruct Hr as (? & ? & ? & ? & ? & ? & ? & ? & ?). repeat split; eauto.
Qed.

(** C6 (amended). A candidate object is accepted exactly when every required
    field is present with its declared type, a string or an array of strings,
    and is rejected otherwise; nothing is coerced. The record returned carries
    the candidate's value for each required field and no other property: a
    candidate with exactly the required fields comes back unchanged, while
    properties outside the schema are dropped. *)
Theorem schema_completeness (m : gmap string json) :
  (well_typed m ↔ is_Some (FrontendPrincipleSchema (JObj m))) ∧
  (¬ well_typed m → FrontendPrincipleSchema (JObj m) = None) ∧
  (∀ r, FrontendPrincipleSchema (JObj m) = Some r →
     spread r ⊆ m ∧
     dom (spread r) = list_to_set required_fields ∧
     (dom m ⊆ dom (spread r) → spread r = m)).
Proof.
  assert (well_typed m ↔ is_Some (FrontendPrincipleSchema (JObj m))) as Hiff.
  { rewrite well_typed_iff. reflexivity. }
  split; [exact Hiff|]. split.
  - intros Hn. destruct (FrontendPrincipleSchema (JObj m)) eqn:E; [|reflexivity].
    exfalso. apply Hn, Hiff. eauto.
  - intros r Hr.
    assert (spread r ⊆ m) as Hsub.
    { apply map_subseteq_spec. intros k v Hk.
      apply schema_Some in Hr.
      destruct Hr as (? & ? & ? & ? & ? & ? & ? & ? & ?).
      unfold spread in Hk.
      repeat (apply lookup_insert_Some in Hk as [[<- <-]|[_ Hk]]; [assumption|]).
      by rewrite lookup_empty in Hk. }
    split; [exact Hsub|]. split; [apply spread_dom|].
    intros Hdom. by apply subseteq_dom_eq.
Qed.

Lemma schema_completeness_witness :
  FrontendPrincipleSchema (JObj with_extra_key) = Some (with_id "p1") ∧
  spread (with_id "p1") ⊆ with_extra_key.
Proof.
  split; [vm_compute; reflexivity|].
  apply (schema_completeness with_extra_key). vm_compute. reflexivity.
Defined.

(** C6 as stated fails: a candidate with every required field correctly typed
    and one extra property is accepted, but what is returned is not the
    candidate: the extra property is gone. *)
Lemma schema_drops_unknown_keys :
  FrontendPrincipleSchema (JObj with_extra_key) = Some (with_id "p1") ∧
  with_extra_key !! "author" = Some (JStr "model") ∧
  spread (with_id "p1") !! "author" = None ∧
  spread (with_id "p1") ≠ with_extra_key.
Proof.
  split; [vm_compute; reflexivity|].
  split; [vm_compute; reflexivity|].
  split; [vm_compute; reflexivity|].
  intros H. apply (f_equal (λ m : gmap string json, m !! "author")) in H.
  vm_compute in H. discriminate.
Qed.

(** A number where a string is required is not turned into a string. *)
Lemma schema_no_coercion : FrontendPrincipleSchema number_as_name = None.
Proof. vm_compute. reflexivity. Qed.

Lemma schema_rejects_non_objects (c : json) :
  (∀ m, c ≠ JObj m) → FrontendPrincipleSchema c = None.
Proof. destruct c; intros H; try reflexivity. by destruct (H m). Qed.

(** ** Summary *)

Lemma append_cons (x : ascii) (a b : string) :
  String x a +:+ b = String x (a +:+ b).
Proof. reflexivity. Qed.

Lemma append_assoc (a b c : string) : (a +:+ b) +:+ c = a +:+ b +:+ c.
Proof.
  induction a as [|x a IH]; [reflexivity|]. rewrite !append_cons. by f_equal.
Qed.

Lemma append_empty_r (a : string) : a +:+ "" = a.
Proof.
  induction a as [|x a IH]; [reflexivity|]. rewrite append_cons. by f_equal.
Qed.

Lemma occurs_prefix (l : list string) (p s : string) :
  occurs_in_order l s → occurs_in_order l (p +:+ s).
Proof.
  destruct l as [|x rest]; [done|].
  intros (pre & post & -> & Hrest).
  exists (p +:+ pre), post. by rewrite append_assoc.
Qed.

Lemma occurs_suffix (l : list string) (s q : string) :
  occurs_in_order l s → occurs_in_order l (s +:+ q).
Proof.
  revert s. induction l as [|x rest IH]; intros s; [done|].
  intros (pre & post & -> & Hrest).
  exists pre, (post +:+ q). split; [by rewrite !append_assoc|]. by apply IH.
Qed.

Lemma occurs_app (l1 l2 : list string) (s1 s2 : string) :
  occurs_in_order l1 s1 → occurs_in_order l2 s2 →
  occurs_in_order (l1 ++ l2) (s1 +:+ s2).
Proof.
  revert s1. induction l1 as [|x rest IH]; intros s1 H1 H2.
  - by apply occurs_prefix.
  - destruct H1 as (pre & post & -> & Hrest).
    exists pre, (post +:+ s2). split; [by rewrite !append_assoc|]. by apply IH.
Qed.

Lemma join_cons (sep x y : string) (l : list string) :
  join sep (x :: y :: l) = x +:+ sep +:+ join sep (y :: l).
Proof. reflexivity. Qed.

Lemma join_in_order (sep : string) (l : list string) :
  occurs_in_order l (join sep l).
Proof.
  induction l as [|x [|y l] IH].
  - done.
  - exists "", "". by rewrite append_empty_r.
  - rewrite join_cons. exists "", (sep +:+ join sep (y :: l)).
    split; [reflexivity|]. by apply occurs_prefix.
Qed.

(** C7. The summary is a total function of the record, so two calls on the
    same record give the same text. It is the name, id and description, then
    each list field as its label and its items joined by a comma and a space,
    then the notes, in this order; the items of every list field occur in it
    in their original order; and on the example record it is the expected
    text. *)
Theorem summary_layout :
  (∀ r, createFrontendPrincipleSummary r = spec_summary r) ∧
  (∀ r, occurs_in_order
          (keyConcepts r ++ designGuidelines r ++ commonPitfalls r ++
           bestPractices r ++ relevantTechnologies r)
          (createFrontendPrincipleSummary r)) ∧
  createFrontendPrincipleSummary example_record =
    "Consistency (p1): .... Key Concepts: A, B. Design Guidelines: G1. Common Pitfalls: . Best Practices: BP1. Technologies: Tech1. Notes: n".
Proof.
  split; [|split].
  - intros r. unfold createFrontendPrincipleSummary, spec_summary, labelled.
    cbn [String.concat]. rewrite !append_assoc. reflexivity.
  - intros r. unfold createFrontendPrincipleSummary.
    rewrite !append_assoc.
    do 7 apply occurs_prefix. apply occurs_app; [apply join_in_order|].
    do 2 apply occurs_prefix. apply occurs_app; [apply join_in_order|].
    do 2 apply occurs_prefix. apply occurs_app; [apply join_in_order|].
    do 2 apply occurs_prefix. apply occurs_app; [apply join_in_order|].
    do 2 apply occurs_prefix. apply occurs_suffix, join_in_order.
  - vm_compute. reflexivity.
Qed.

(** ** The seeding run *)

Lemma seedDatabase_settle (w : World) (s : Run) :
  seedDatabase w s = settle (seed_body w s).
Proof.
  unfold seedDatabase, try_catch_finally, settle.
  destruct (seed_body w s) as [[e|[]] s1]; unfold_m;
    by rewrite <- ?app_assoc.
Qed.

(** The [try] block up to the loop, by what the outside does. *)
Lemma seed_body_start (w : World) (pre : list (gmap string json)) :
  seed_body w (start pre) =
  if connect_ok w then
    if ping_ok w then
      if deleteMany_ok w then
        let s0 := {| collection := []; connected := true; events := preamble |} in
        match llm_invoke w prompt with
        | None => (inl ModelError, s0)
        | Some text =>
            match json_of_text text ≫= parser_schema with
            | None => (inl OutputParserException, s0)
            | Some rs =>
                (for_of (save_record w) 0 (with_summary <$> rs) ;;
                 emit (ConsoleLog "Database seeding completed" [])) s0
            end
        end
      else
        (inl DeleteError,
         {| collection := pre; connected := true;
            events := take 4 preamble |})
    else
      (inl PingError,
       {| collection := pre; connected := true; events := take 2 preamble |})
  else
    (inl ConnectError,
     {| collection := pre; connected := false; events := take 1 preamble |}).
Proof.
  unfold seed_body, connect, ping, deleteMany, generateSyntheticData,
    parser_parse, start.
  destruct (connect_ok w); [|reflexivity].
  destruct (ping_ok w); [|reflexivity].
  destruct (deleteMany_ok w); [|reflexivity].
  cbn. destruct (llm_invoke w prompt) as [text|]; [|reflexivity].
  cbn. destruct (json_of_text text ≫= parser_schema); reflexivity.
Qed.

Lemma extend_extend (s : Run) (d1 d2 : list (gmap string json)) (e1 e2 : list Event) :
  extend (extend s d1 e1) d2 e2 = extend s (d1 ++ d2) (e1 ++ e2).
Proof. unfold extend. cbn. by rewrite !app_assoc. Qed.

Lemma extend_nil (s : Run) : extend s [] [] = s.
Proof. destruct s. unfold extend. cbn. by rewrite !app_nil_r. Qed.

(** One turn of the loop. *)
Lemma save_record_run (w : World) (i : nat) (d : Doc) (s : Run) :
  save_record w i d s =
  match embedDocuments w i (pageContent d) with
  | None => (inl EmbeddingError, extend s [] [EvEmbed (pageContent d)])
  | Some v =>
      let obj := stored_object "embedding_text" "embedding" d v in
      if insertMany_ok w i then
        (inr tt,
         extend s [obj]
           [EvEmbed (pageContent d); EvInsertMany obj;
            ConsoleLog "Successfully processed & saved record:"
              [metadata d !! "principle_id"]])
      else
        (inl InsertError,
         extend s [] [EvEmbed (pageContent d); EvInsertMany obj])
  end.
Proof.
  unfold save_record, fromDocuments, extend. unfold_m.
  destruct (embedDocuments w i (pageContent d)) as [v|]; cbn.
  - destruct (insertMany_ok w i); cbn; by rewrite <- ?app_assoc, ?app_nil_r.
  - by rewrite app_nil_r.
Qed.

Lemma for_of_cons {A : Type} (body : nat → A → M unit) (i : nat) (x : A)
    (l : list A) (s : Run) :
  for_of body i (x :: l) s =
  match body i x s with
  | (inl e, s') => (inl e, s')
  | (inr _, s') => for_of body (S i) l s'
  end.
Proof. reflexivity. Qed.

(** The loop only adds documents and events; it never closes the connection
    and never writes to the error console; every document it adds is the
    stored object of one of the records, with the vector returned for that
    record's summary. *)
Lemma for_of_save_record (w : World) (rs : list FrontendPrinciple) (i : nat) (s : Run) :
  ∃ r written es,
    for_of (save_record w) i (with_summary <$> rs) s = (r, extend s written es) ∧
    Forall (λ ev, is_close ev = false ∧ is_console_error ev = false) es ∧
    Forall (written_by w es) written.
Proof.
  revert i s. induction rs as [|x rs IH]; intros i s.
  - exists (inr tt), [], []. rewrite extend_nil. by repeat split.
  - rewrite fmap_cons, for_of_cons, save_record_run.
    destruct (embedDocuments w i (pageContent (with_summary x))) as [v|] eqn:Ev.
    + cbn zeta. destruct (insertMany_ok w i).
      * match goal with |- context [for_of _ _ _ ?s1] =>
          destruct (IH (S i) s1) as (r & written & es & Hrun & Hes & Hw)
        end.
        rewrite Hrun, extend_extend.
        eexists r, _, _. split; [reflexivity|]. split.
        { repeat (apply Forall_cons; split; [done|]). exact Hes. }
        apply Forall_cons. split.
        { split; [|by exists i, x, v].
          apply elem_of_app. left.
          apply list_elem_of_further, list_elem_of_here. }
        eapply Forall_impl; [exact Hw|].
        intros doc [Hin Hdoc]. split; [|exact Hdoc].
        apply elem_of_app. by right.
      * eexists _, [], _. split; [reflexivity|]. split; [|done].
        by repeat (apply Forall_cons; split; [done|]).
    + eexists _, [], _. split; [reflexivity|]. split; [|done].
      by repeat (apply Forall_cons; split; [done|]).
Qed.

Lemma filter_none {A : Type} (f : A → bool) (l : list A) :
  Forall (λ x, f x = false) l → List.filter f l = [].
Proof.
  induction 1 as [|x l Hx _ IH]; [reflexivity|]. cbn. by rewrite Hx.
Qed.

Lemma bind_run {A B : Type} (m : M A) (f : A → M B) (s : Run) :
  (m ≫= f) s =
  match m s with
  | (inl e, s') => (inl e, s')
  | (inr a, s') => f a s'
  end.
Proof. reflexivity. Qed.

Lemma written_by_more (w : World) (e1 es e2 : list Event) (doc : gmap string json) :
  written_by w es doc → written_by w (e1 ++ es ++ e2) doc.
Proof.
  intros [Hin Hdoc]. split; [|exact Hdoc].
  apply elem_of_app. right. apply elem_of_app. by left.
Qed.

(** Every run, whatever the outside does: the call resolves, the connection
    is closed last, the collection is what was there (or nothing, once the
    deletion went through) followed by what the loop stored. *)
Lemma seed_outcome (w : World) (pre : list (gmap string json)) :
  ∃ written es,
    seed w pre =
      (inr tt,
       {| collection :=
            (if connect_ok w && ping_ok w && deleteMany_ok w then [] else pre)
            ++ written;
          connected := false;
          events := es ++ [EvClose] |}) ∧
    Forall (λ ev, is_close ev = false) es ∧
    Forall (written_by w es) written ∧
    (connect_ok w && ping_ok w && deleteMany_ok w = false → written = []).
Proof.
  unfold seed. rewrite seedDatabase_settle, seed_body_start.
  destruct (connect_ok w); cbn [andb];
    [|exists [], (take 1 preamble ++ [ConsoleError "Error seeding database:" ConnectError]);
      split; [by rewrite app_nil_r|]; split; [by repeat constructor|done]].
  destruct (ping_ok w); cbn [andb];
    [|exists [], (take 2 preamble ++ [ConsoleError "Error seeding database:" PingError]);
      split; [by rewrite app_nil_r|]; split; [by repeat constructor|done]].
  destruct (deleteMany_ok w); cbn [andb];
    [|exists [], (take 4 preamble ++ [ConsoleError "Error seeding database:" DeleteError]);
      split; [by rewrite app_nil_r|]; split; [by repeat constructor|done]].
  cbn zeta.
  destruct (llm_invoke w prompt) as [text|];
    [|exists [], (preamble ++ [ConsoleError "Error seeding database:" ModelError]);
      split; [reflexivity|]; split; [by repeat constructor|done]].
  destruct (json_of_text text ≫= parser_schema) as [rs|];
    [|exists [], (preamble ++ [ConsoleError "Error seeding database:" OutputParserException]);
      split; [reflexivity|]; split; [by repeat constructor|done]].
  rewrite bind_run.
  match goal with |- context [for_of _ _ _ ?s0] =>
    destruct (for_of_save_record w rs 0 s0) as (r & written & es & -> & Hes & Hw)
  end.
  assert (Forall (λ ev, is_close ev = false) es) as Hes'.
  { eapply Forall_impl; [exact Hes|]. by intros ev [? _]. }
  destruct r as [e|[]].
  - exists written, (preamble ++ es ++ [ConsoleError "Error seeding database:" e]).
    split; [|split; [|split; [|done]]].
    + unfold settle, extend. cbn [collection connected events app].
      by rewrite <- !app_assoc.
    + apply Forall_app. split; [by repeat constructor|].
      apply Forall_app. split; [exact Hes'|by repeat constructor].
    + eapply Forall_impl; [exact Hw|]. intros doc. apply written_by_more.
  - exists written, (preamble ++ es ++ [ConsoleLog "Database seeding completed" []]).
    split; [|split; [|split; [|done]]].
    + unfold settle, extend, emit. cbn [collection connected events app].
      by rewrite <- !app_assoc.
    + apply Forall_app. split; [by repeat constructor|].
      apply Forall_app. split; [exact Hes'|by repeat constructor].
    + eapply Forall_impl; [exact Hw|]. intros doc. apply written_by_more.
Qed.

Lemma spread_not_required (r : FrontendPrinciple) (k : string) :
  k ∉ required_fields → spread r !! k = None.
Proof.
  intros Hk. destruct (spread r !! k) as [v|] eqn:E; [|reflexivity].
  destruct Hk. by eapply spread_lookup.
Qed.

(** The text and vector keys are not properties of a record, so the spread
    metadata overrides neither. *)
Lemma stored_paired (w : World) (j : nat) (r : FrontendPrinciple) (v : list Z) :
  embedDocuments w j (createFrontendPrincipleSummary r) = Some v →
  paired w (stored r v).
Proof.
  intros Hv. exists j, r, v. unfold stored, stored_object. cbn [metadata pageContent with_summary].
  split; [|split; [|split; [exact Hv|]]].
  - rewrite lookup_union_r by (apply spread_not_required; compute_done).
    by simplify_map_eq.
  - rewrite lookup_union_r by (apply spread_not_required; compute_done).
    by simplify_map_eq.
  - apply map_union_subseteq_l.
Qed.

Lemma written_by_paired (w : World) (es : list Event) (doc : gmap string json) :
  written_by w es doc → paired w doc.
Proof. intros [_ (j & r & v & Hv & ->)]. by eapply stored_paired. Qed.

(** What is in the collection after a run: the documents that were there if
    the deletion was not reached or failed, none of them otherwise, followed
    by documents this run inserted, each paired. *)
Lemma seed_collection (w : World) (pre : list (gmap string json)) :
  ∃ written,
    collection (seed w pre).2 =
      (if connect_ok w && ping_ok w && deleteMany_ok w then [] else pre)
      ++ written ∧
    Forall (λ d, EvInsertMany d ∈ events (seed w pre).2 ∧ paired w d) written.
Proof.
  destruct (seed_outcome w pre) as (written & es & -> & _ & Hw & _).
  exists written. split; [reflexivity|].
  eapply Forall_impl; [exact Hw|]. intros d Hd. split.
  - destruct Hd as [Hin _]. cbn. apply elem_of_app. by left.
  - by eapply written_by_paired.
Qed.

(** Whatever the [try] block throws is caught and logged; with a [close]
    that settles, the call resolves. *)
Lemma seed_resolves (w : World) (pre : list (gmap string json)) :
  (seed w pre).1 = inr tt.
Proof. by destruct (seed_outcome w pre) as (written & es & -> & _). Qed.

(** C9. In every run, whatever fails, [client.close()] is called exactly
    once; it is the last thing the run does, and the run ends with the
    connection released. *)
Theorem close_exactly_once (w : World) (pre : list (gmap string json)) :
  List.filter is_close (events (seed w pre).2) = [EvClose] ∧
  last (events (seed w pre).2) = Some EvClose ∧
  connected (seed w pre).2 = false.
Proof.
  destruct (seed_outcome w pre) as (written & es & -> & Hes & _ & _). cbn.
  split; [|split; [apply last_snoc|reflexivity]].
  rewrite List.filter_app, (filter_none is_close es Hes). reflexivity.
Qed.

(** C3. Every document a run inserts holds, under [embedding], the vector the
    embedding capability returned for the text the same document holds under
    [embedding_text], and that text is the summary of the record whose
    properties the document carries. After a run the collection consists of
    such documents, preceded by the earlier documents only when the deletion
    did not happen. *)
Theorem stored_vector_is_of_stored_text (w : World) (pre : list (gmap string json)) :
  ∃ kept written,
    collection (seed w pre).2 = kept ++ written ∧
    (kept = [] ∨ kept = pre) ∧
    Forall (λ d, EvInsertMany d ∈ events (seed w pre).2 ∧ paired w d) written.
Proof.
  destruct (seed_collection w pre) as (written & Hc & Hw).
  exists (if connect_ok w && ping_ok w && deleteMany_ok w then [] else pre), written.
  split; [exact Hc|]. split; [|exact Hw].
  destruct (connect_ok w && ping_ok w && deleteMany_ok w); auto.
Qed.

(** The loop when the first [length vs] records go through with the vectors
    [vs] and the next record fails: it stops there. *)
Lemma for_of_stops (w : World) (vs : list (list Z)) :
  ∀ (rs : list FrontendPrinciple) (i : nat) (s : Run),
    length vs < length rs →
    (∀ j r v, rs !! j = Some r → vs !! j = Some v →
       embedDocuments w (i + j) (createFrontendPrincipleSummary r) = Some v ∧
       insertMany_ok w (i + j) = true) →
    (∃ r, rs !! length vs = Some r ∧
       (embedDocuments w (i + length vs) (createFrontendPrincipleSummary r) = None ∨
        insertMany_ok w (i + length vs) = false)) →
    ∃ e es,
      for_of (save_record w) i (with_summary <$> rs) s =
        (inl e, extend s (zip_with stored (take (length vs) rs) vs) es) ∧
      (e = EmbeddingError ∨ e = InsertError) ∧
      length (List.filter is_embed es) = S (length vs) ∧
      Forall (λ ev, is_console_error ev = false) es.
Proof.
  induction vs as [|v vs IH]; intros rs i s Hlen Hok Hfail.
  - destruct rs as [|x rs]; [cbn in Hlen; lia|].
    destruct Hfail as (r & Hr & Hfail). cbn in Hr. injection Hr as ->.
    cbn [length] in Hfail. rewrite Nat.add_0_r in Hfail.
    rewrite fmap_cons, for_of_cons, save_record_run.
    cbn [pageContent with_summary].
    destruct (embedDocuments w i (createFrontendPrincipleSummary r)) as [v|].
    + destruct Hfail as [|Hins]; [discriminate|]. cbn zeta. rewrite Hins.
      eexists InsertError, _. split; [reflexivity|].
      split; [by right|]. split; [reflexivity|]. by repeat constructor.
    + eexists EmbeddingError, _. split; [reflexivity|].
      split; [by left|]. split; [reflexivity|]. by repeat constructor.
  - destruct rs as [|x rs]; [cbn in Hlen; lia|].
    destruct (Hok 0 x v eq_refl eq_refl) as [Hv Hins].
    rewrite Nat.add_0_r in Hv, Hins.
    rewrite fmap_cons, for_of_cons, save_record_run.
    cbn [pageContent with_summary]. rewrite Hv. cbn zeta. rewrite Hins.
    match goal with |- context [for_of _ _ _ ?s1] =>
      destruct (IH rs (S i) s1) as (e & es & -> & He & Hcount & Hquiet)
    end.
    + cbn in Hlen. lia.
    + intros j r u Hr Hu. rewrite Nat.add_succ_l, <- Nat.add_succ_r.
      by apply Hok.
    + destruct Hfail as (r & Hr & Hfail). exists r. split; [exact Hr|].
      cbn [length] in Hfail. by rewrite Nat.add_succ_l, <- Nat.add_succ_r.
    + rewrite extend_extend. eexists e, _. split; [reflexivity|].
      split; [exact He|]. split.
      * rewrite List.filter_app, length_app, Hcount. reflexivity.
      * apply Forall_app. split; [by repeat constructor|exact Hquiet].
Qed.

(** C1 (amended). When the store is reached and the model's reply parses to
    the records [rs], and the embedding or the insertion of the record at
    position [length vs] fails after the earlier records went through with
    the vectors [vs]: the earlier records are stored, the loop stops at the
    failing record and no later record is embedded or inserted, the error is
    caught and written once to the error console, and the call still
    resolves; the error does not escape [seedDatabase]. *)
Theorem seed_stops_at_first_failure (w : World) (pre : list (gmap string json))
    (text : string) (rs : list FrontendPrinciple) (vs : list (list Z)) :
  connect_ok w = true → ping_ok w = true → deleteMany_ok w = true →
  llm_invoke w prompt = Some text →
  json_of_text text ≫= parser_schema = Some rs →
  length vs < length rs →
  (∀ j r v, rs !! j = Some r → vs !! j = Some v →
     embedDocuments w j (createFrontendPrincipleSummary r) = Some v ∧
     insertMany_ok w j = true) →
  (∃ r, rs !! length vs = Some r ∧
     (embedDocuments w (length vs) (createFrontendPrincipleSummary r) = None ∨
      insertMany_ok w (length vs) = false)) →
  (seed w pre).1 = inr tt ∧
  collection (seed w pre).2 = zip_with stored (take (length vs) rs) vs ∧
  length (List.filter is_embed (events (seed w pre).2)) = S (length vs) ∧
  ∃ e, (e = EmbeddingError ∨ e = InsertError) ∧
       List.filter is_console_error (events (seed w pre).2) =
         [ConsoleError "Error seeding database:" e].
Proof.
  intros Hc Hp Hd Hllm Hparse Hlen Hok Hfail.
  unfold seed. rewrite seedDatabase_settle, seed_body_start.
  rewrite Hc, Hp, Hd, Hllm, Hparse. cbn zeta. rewrite bind_run.
  match goal with |- context [for_of _ _ _ ?s0] =>
    destruct (for_of_stops w vs rs 0 s0 Hlen Hok Hfail)
      as (e & es & -> & He & Hcount & Hquiet)
  end.
  unfold settle, extend. cbn [fst snd collection connected events].
  split; [reflexivity|]. split; [reflexivity|]. split.
  - rewrite !List.filter_app, !length_app, Hcount. cbn. lia.
  - exists e. split; [exact He|].
    rewrite !List.filter_app, (filter_none is_console_error es Hquiet). by cbn.
Qed.

(** C10. Once the store is reached, the collection is emptied before the
    model is called. If the model call fails or its reply does not parse, the
    call still resolves: the error is logged, the connection is closed, and
    the collection is left empty, without the documents it held and without
    any new one. *)
Theorem failed_generation_leaves_collection_empty
    (w : World) (pre : list (gmap string json)) :
  connect_ok w = true → ping_ok w = true → deleteMany_ok w = true →
  (llm_invoke w prompt = None ∨
   ∃ text, llm_invoke w prompt = Some text ∧
           json_of_text text ≫= parser_schema = None) →
  ∃ e, (e = ModelError ∨ e = OutputParserException) ∧
       seed w pre =
         (inr tt,
          {| collection := []; connected := false;
             events := preamble ++
                       [ConsoleError "Error seeding database:" e; EvClose] |}).
Proof.
  intros Hc Hp Hd Hgen.
  unfold seed. rewrite seedDatabase_settle, seed_body_start, Hc, Hp, Hd.
  cbn zeta. destruct Hgen as [->|(text & -> & ->)].
  - exists ModelError. split; [by left|reflexivity].
  - exists OutputParserException. split; [by right|reflexivity].
Qed.

(** ** Generation *)

Lemma array_schema_None (l : list json) :
  mapM FrontendPrincipleSchema l = None ↔
  Exists (λ c, FrontendPrincipleSchema c = None) l.
Proof.
  rewrite eq_None_not_Some, mapM_is_Some. split.
  - intros H. apply not_Forall_Exists in H; [|apply _].
    eapply Exists_impl; [exact H|]. intros c Hc. by apply eq_None_not_Some.
  - intros H HF. apply Exists_exists in H as (c & Hin & Hc).
    rewrite Forall_forall in HF. specialize (HF c Hin). cbn in HF.
    rewrite Hc in HF. by destruct HF.
Qed.

Lemma unparseable_iff (text : string) :
  unparseable text ↔ json_of_text text ≫= parser_schema = None.
Proof.
  unfold unparseable. destruct (json_of_text text) as [j|]; cbn.
  - split.
    + intros [|(j' & [= <-] & [Hna|(l & -> & Hex)])]; [discriminate| |].
      * destruct j; try reflexivity. by destruct (Hna l).
      * by apply array_schema_None.
    + intros H. right. exists j. split; [reflexivity|].
      destruct j; try (left; discriminate).
      right. exists l. split; [reflexivity|]. by apply array_schema_None.
  - split; auto.
Qed.

Lemma generate_run (w : World) (text : string) (s : Run) :
  llm_invoke w prompt = Some text →
  generateSyntheticData w s =
  let s' :=
    extend s []
      [ConsoleLog "Generating synthetic frontend principles data..." [];
       EvInvoke prompt] in
  match json_of_text text ≫= parser_schema with
  | None => (inl OutputParserException, s')
  | Some rs => (inr rs, s')
  end.
Proof.
  intros Hllm. remember (json_of_text text ≫= parser_schema) as parsed.
  unfold generateSyntheticData, extend. unfold_m.
  rewrite Hllm. unfold parser_parse. rewrite <- Heqparsed.
  destruct parsed; unfold_m; by rewrite <- app_assoc, app_nil_r.
Qed.

(** C4 (amended). Given a reply of the model, [generateSyntheticData] fails,
    with the parser's exception, exactly when the reply is not JSON, is not an
    array, or has an element that is not a valid record. That failure ends
    the run before anything is embedded or inserted: it is logged and the
    collection is left empty. A reply that is the empty array is accepted:
    generation succeeds with an empty batch. *)
Theorem generation_fails_iff_unparseable (w : World) (text : string) (s : Run) :
  llm_invoke w prompt = Some text →
  ((generateSyntheticData w s).1 = inl OutputParserException ↔ unparseable text) ∧
  (json_of_text text = Some (JArr []) → (generateSyntheticData w s).1 = inr []) ∧
  (unparseable text →
   connect_ok w = true → ping_ok w = true → deleteMany_ok w = true →
   ∀ pre,
     collection (seed w pre).2 = [] ∧
     List.filter is_embed (events (seed w pre).2) = [] ∧
     List.filter is_insert (events (seed w pre).2) = [] ∧
     List.filter is_console_error (events (seed w pre).2) =
       [ConsoleError "Error seeding database:" OutputParserException]).
Proof.
  intros Hllm. rewrite (generate_run w text s Hllm), unparseable_iff. cbn zeta.
  split; [|split].
  - destruct (json_of_text text ≫= parser_schema); cbn; split; congruence.
  - intros ->. reflexivity.
  - intros Hun Hc Hp Hd pre.
    unfold seed. rewrite seedDatabase_settle, seed_body_start.
    rewrite Hc, Hp, Hd, Hllm, Hun. cbn. done.
Qed.

(** C5 (amended). When the reply is an array, every element is checked
    against the record schema, and the array parses exactly when all of them
    pass, to the records in the same order. A single element that fails
    makes the whole parse fail with the parser's exception: no record of the
    batch is returned, the valid ones included. *)
Theorem array_is_all_or_nothing (text : string) (l : list json) (s : Run) :
  json_of_text text = Some (JArr l) →
  (∀ rs, parser_parse text s = (inr rs, s) ↔
         Forall2 (λ c r, FrontendPrincipleSchema c = Some r) l rs) ∧
  (Exists (λ c, FrontendPrincipleSchema c = None) l →
   parser_parse text s = (inl OutputParserException, s)).
Proof.
  intros Htext. unfold parser_parse. rewrite Htext. cbn [mbind option_bind parser_schema].
  split.
  - intros rs. rewrite <- mapM_Some.
    destruct (mapM FrontendPrincipleSchema l); unfold_m; split; congruence.
  - intros Hex. apply array_schema_None in Hex. by rewrite Hex.
Qed.

(** With an embedding capability that returns a hash of its input, every
    document left by a run holds the hash of the text it holds. *)
Lemma hash_stub_pairing (reply : option string) (pre : list (gmap string json))
    (d : gmap string json) :
  d ∈ collection (seed (replying reply) pre).2 →
  ∃ text, d !! "embedding_text" = Some (JStr text) ∧
          d !! "embedding" = Some (vector_json (hash text)).
Proof.
  destruct (seed_collection (replying reply) pre) as (written & -> & Hw).
  cbn [connect_ok ping_ok deleteMany_ok replying andb app]. intros Hd.
  rewrite Forall_forall in Hw.
  destruct (Hw d Hd) as [_ (i & r & v & Htext & Hvec & Hv & _)].
  cbn in Hv. injection Hv as <-. eauto.
Qed.

(** ** The loop, record by record *)

Lemma loop_event_other (ev : Event) :
  loop_event ev = true →
  is_close ev = false ∧ is_console_error ev = false ∧ is_invoke ev = false ∧
  is_delete ev = false ∧ is_completed ev = false.
Proof.
  destruct ev; try discriminate; cbn; try done.
  intros H. apply String.eqb_eq in H. subst msg. done.
Qed.

Lemma saved_ids_app (e1 e2 : list Event) :
  saved_ids (e1 ++ e2) = saved_ids e1 ++ saved_ids e2.
Proof. unfold saved_ids. apply List.flat_map_app. Qed.

Lemma with_summary_id (r : FrontendPrinciple) :
  metadata (with_summary r) !! "principle_id" = record_id r.
Proof. cbn. unfold spread. by rewrite lookup_insert_eq. Qed.

(** The loop from position [i] on: it stores the objects of the records up
    to the first one whose embedding or insertion fails, each with the vector
    the provider returned for it, logs their ids, and stops there. *)
Lemma for_of_run (w : World) (rs : list FrontendPrinciple) :
  ∀ (i : nat) (s : Run),
  ∃ res vs es,
    for_of (save_record w) i (with_summary <$> rs) s =
      (res, extend s (zip_with stored (take (length vs) rs) vs) es) ∧
    (length vs ≤ length rs)%nat ∧
    (∀ j r v, rs !! j = Some r → vs !! j = Some v →
       embedDocuments w (i + j) (createFrontendPrincipleSummary r) = Some v ∧
       insertMany_ok w (i + j) = true) ∧
    ((res = inr tt ∧ length vs = length rs) ∨
     ((∃ e, res = inl e) ∧
      ∃ r, rs !! length vs = Some r ∧
        (embedDocuments w (i + length vs) (createFrontendPrincipleSummary r) = None ∨
         insertMany_ok w (i + length vs) = false))) ∧
    saved_ids es = record_id <$> take (length vs) rs ∧
    Forall (λ ev, loop_event ev = true) es.
Proof.
  induction rs as [|x rs IH]; intros i s.
  - exists (inr tt), [], []. rewrite extend_nil.
    split; [reflexivity|]. split; [reflexivity|]. split; [by intros []|].
    split; [by left|]. by split.
  - rewrite fmap_cons, for_of_cons, save_record_run.
    cbn [pageContent with_summary].
    destruct (embedDocuments w i (createFrontendPrincipleSummary x)) as [v|] eqn:Ev.
    + cbn zeta. destruct (insertMany_ok w i) eqn:Eins.
      * match goal with |- context [for_of _ _ _ ?s1] =>
          destruct (IH (S i) s1) as (res & vs & es & -> & Hlen & Hok & Hres & Hids & Hes)
        end.
        rewrite extend_extend. exists res, (v :: vs). eexists.
        split; [reflexivity|]. split; [cbn; lia|]. split; [|split; [|split]].
        -- intros [|j] r u Hr Hu.
           ++ injection Hr as <-. injection Hu as <-.
              by rewrite Nat.add_0_r.
           ++ rewrite Nat.add_succ_r, <- Nat.add_succ_l. by apply Hok.
        -- destruct Hres as [[-> Hall]|[He (r & Hr & Hfail)]].
           ++ left. split; [reflexivity|]. cbn. by rewrite Hall.
           ++ right. split; [exact He|]. exists r. split; [exact Hr|].
              cbn [length]. by rewrite Nat.add_succ_r, <- Nat.add_succ_l.
        -- rewrite saved_ids_app, Hids. cbn [length take fmap list_fmap].
           rewrite <- (with_summary_id x). reflexivity.
        -- apply Forall_app. split; [by repeat constructor|exact Hes].
      * exists (inl InsertError), []. eexists.
        split; [reflexivity|]. split; [cbn; lia|]. split; [by intros [] |].
        split; [|by split; [|repeat constructor]].
        right. split; [eauto|]. exists x. split; [reflexivity|].
        right. by rewrite Nat.add_0_r.
    + exists (inl EmbeddingError), []. eexists.
      split; [reflexivity|]. split; [cbn; lia|]. split; [by intros [] |].
      split; [|by split; [|repeat constructor]].
      right. split; [eauto|]. exists x. split; [reflexivity|].
      left. by rewrite Nat.add_0_r.
Qed.

Lemma loop_events_filter (f : Event → bool) (es : list Event) :
  (∀ ev, loop_event ev = true → f ev = false) →
  Forall (λ ev, loop_event ev = true) es → List.filter f es = [].
Proof.
  intros Hf Hes. apply filter_none. eapply Forall_impl; [exact Hes|].
  intros ev. apply Hf.
Qed.

(** The events of any run: the events before the loop as far as the run
    gets, the events of the loop, then one verdict, the error or the line of
    completion, and the close. *)
Lemma seed_trace (w : World) (pre : list (gmap string json)) :
  ∃ es verdict,
    events (seed w pre).2 = take (reached w) preamble ++ es ++ [verdict; EvClose] ∧
    Forall (λ ev, loop_event ev = true) es ∧
    ((∃ e, verdict = ConsoleError "Error seeding database:" e) ∨
     verdict = ConsoleLog "Database seeding completed" []) ∧
    (reached w < 6 → es = []).
Proof.
  unfold seed, reached. rewrite seedDatabase_settle, seed_body_start.
  destruct (connect_ok w);
    [|exists []; eexists; split; [reflexivity|]; split; [done|]; split; [eauto|done]].
  destruct (ping_ok w);
    [|exists []; eexists; split; [reflexivity|]; split; [done|]; split; [eauto|done]].
  destruct (deleteMany_ok w);
    [|exists []; eexists; split; [reflexivity|]; split; [done|]; split; [eauto|done]].
  cbn zeta.
  destruct (llm_invoke w prompt) as [text|];
    [|exists []; eexists; split; [reflexivity|]; split; [done|]; split; [eauto|done]].
  destruct (json_of_text text ≫= parser_schema) as [rs|];
    [|exists []; eexists; split; [reflexivity|]; split; [done|]; split; [eauto|done]].
  rewrite bind_run.
  match goal with |- context [for_of _ _ _ ?s0] =>
    destruct (for_of_run w rs 0 s0) as (res & vs & es & -> & _ & _ & _ & _ & Hes)
  end.
  exists es. destruct res as [e|[]]; eexists.
  - split.
    { unfold settle, extend. cbn [snd events]. by rewrite <- app_assoc. }
    split; [exact Hes|]. split; [eauto|]. intros H. lia.
  - split.
    { unfold settle, extend, emit. cbn [snd events]. by rewrite <- !app_assoc. }
    split; [exact Hes|]. split; [by right|]. intros H. lia.
Qed.

(** X5. Whatever fails, a run leaves exactly one verdict in the log before
    the connection is closed: the line of completion or one line of error,
    never both and never neither. *)
Theorem seed_one_verdict (w : World) (pre : list (gmap string json)) :
  length (List.filter is_completed (events (seed w pre).2)) +
  length (List.filter is_console_error (events (seed w pre).2)) = 1 ∧
  ∃ es verdict,
    events (seed w pre).2 = es ++ [verdict; EvClose] ∧
    (is_completed verdict = true ∨ is_console_error verdict = true).
Proof.
  destruct (seed_trace w pre) as (es & verdict & -> & Hes & Hv & _).
  split.
  - rewrite !List.filter_app, !length_app.
    rewrite (loop_events_filter is_completed es),
      (loop_events_filter is_console_error es);
      try exact Hes;
      try (intros ev Hev; apply loop_event_other in Hev as (? & ? & ? & ? & ?);
           assumption).
    assert (length (List.filter is_completed (take (reached w) preamble)) = 0 ∧
            length (List.filter is_console_error (take (reached w) preamble)) = 0)
      as [-> ->].
    { unfold reached.
      destruct (connect_ok w), (ping_ok w), (deleteMany_ok w); by cbn. }
    destruct Hv as [[e ->]| ->]; reflexivity.
  - exists (take (reached w) preamble ++ es), verdict.
    split; [by rewrite <- app_assoc|].
    destruct Hv as [[e ->]| ->]; [by right|by left].
Qed.

(** X4. The deletion is called exactly when the connection and the ping
    succeeded, and the model is called exactly when the deletion succeeded
    too: each at most once in a run, the model with the prompt, and never
    before the collection was emptied. *)
Theorem seed_deletes_then_asks (w : World) (pre : list (gmap string json)) :
  List.filter is_delete (events (seed w pre).2) =
    (if connect_ok w && ping_ok w then [EvDeleteMany] else []) ∧
  List.filter is_invoke (events (seed w pre).2) =
    (if connect_ok w && ping_ok w && deleteMany_ok w then [EvInvoke prompt] else []).
Proof.
  destruct (seed_trace w pre) as (es & verdict & -> & Hes & Hv & _).
  rewrite !List.filter_app.
  rewrite (loop_events_filter is_delete es), (loop_events_filter is_invoke es);
    try exact Hes;
    try (intros ev Hev; apply loop_event_other in Hev as (? & ? & ? & ? & ?);
         assumption).
  assert (List.filter is_delete [verdict; EvClose] = [] ∧
          List.filter is_invoke [verdict; EvClose] = []) as [-> ->].
  { by destruct Hv as [[e ->]| ->]. }
  rewrite !app_nil_r. unfold reached.
  destruct (connect_ok w), (ping_ok w), (deleteMany_ok w); by cbn.
Qed.

(** X3. When the store cannot be reached or the deletion fails, the run
    leaves the collection exactly as it was: the model is not called,
    nothing is embedded or inserted, and one error is logged. *)
Theorem seed_store_unreachable (w : World) (pre : list (gmap string json)) :
  connect_ok w && ping_ok w && deleteMany_ok w = false →
  collection (seed w pre).2 = pre ∧
  List.filter is_invoke (events (seed w pre).2) = [] ∧
  List.filter is_embed (events (seed w pre).2) = [] ∧
  List.filter is_insert (events (seed w pre).2) = [] ∧
  ∃ e, (e = ConnectError ∨ e = PingError ∨ e = DeleteError) ∧
       List.filter is_console_error (events (seed w pre).2) =
         [ConsoleError "Error seeding database:" e].
Proof.
  intros Hfail. unfold seed. rewrite seedDatabase_settle, seed_body_start.
  destruct (connect_ok w); [|cbn; eauto 10].
  destruct (ping_ok w); [|cbn; eauto 10].
  destruct (deleteMany_ok w); [discriminate|cbn; eauto 10].
Qed.

Lemma saved_ids_preamble : saved_ids preamble = [].
Proof. reflexivity. Qed.

Lemma saved_ids_verdict (ev : Event) :
  is_completed ev = true ∨ is_console_error ev = true ∨ is_close ev = true →
  saved_ids [ev] = [].
Proof.
  destruct ev; cbn; try reflexivity; intros [H|[H|H]]; try discriminate.
  apply String.eqb_eq in H. by subst msg.
Qed.

(** The run after the deletion and a reply that parses to [rs], in terms of
    what the loop does. *)
Lemma seed_after_parse (w : World) (pre : list (gmap string json))
    (text : string) (rs : list FrontendPrinciple) :
  connect_ok w = true → ping_ok w = true → deleteMany_ok w = true →
  llm_invoke w prompt = Some text →
  json_of_text text ≫= parser_schema = Some rs →
  seed w pre =
  settle
    ((for_of (save_record w) 0 (with_summary <$> rs) ;;
      emit (ConsoleLog "Database seeding completed" []))
       {| collection := []; connected := true; events := preamble |}).
Proof.
  intros Hc Hp Hd Hllm Hparse. unfold seed.
  rewrite seedDatabase_settle, seed_body_start.
  by rewrite Hc, Hp, Hd, Hllm, Hparse.
Qed.

(** X2. In every run that reaches the loop, whatever the embedding provider
    and the store do, the collection ends up holding the stored objects of
    the first records of the batch, in the order of the batch, without gaps
    or repeats, each with the vector the provider returned for its summary.
    The ids logged as saved are the ids of exactly these records, and no
    error is logged exactly when all records are stored. *)
Theorem seed_stores_a_prefix (w : World) (pre : list (gmap string json))
    (text : string) (rs : list FrontendPrinciple) :
  connect_ok w = true → ping_ok w = true → deleteMany_ok w = true →
  llm_invoke w prompt = Some text →
  json_of_text text ≫= parser_schema = Some rs →
  ∃ vs,
    (length vs ≤ length rs)%nat ∧
    (∀ j r v, rs !! j = Some r → vs !! j = Some v →
       embedDocuments w j (createFrontendPrincipleSummary r) = Some v) ∧
    collection (seed w pre).2 = zip_with stored (take (length vs) rs) vs ∧
    saved_ids (events (seed w pre).2) = record_id <$> take (length vs) rs ∧
    (List.filter is_console_error (events (seed w pre).2) = [] ↔
     length vs = length rs).
Proof.
  intros Hc Hp Hd Hllm Hparse.
  rewrite (seed_after_parse w pre text rs Hc Hp Hd Hllm Hparse), bind_run.
  match goal with |- context [for_of _ _ _ ?s0] =>
    destruct (for_of_run w rs 0 s0)
      as (res & vs & es & -> & Hlen & Hok & Hres & Hids & Hes)
  end.
  assert (List.filter is_console_error es = []) as Hquiet.
  { apply loop_events_filter; [|exact Hes].
    intros ev Hev. by apply loop_event_other in Hev as (? & ? & ? & ? & ?). }
  exists vs. split; [exact Hlen|]. split.
  { intros j r v Hr Hv. by destruct (Hok j r v Hr Hv). }
  destruct Hres as [[-> Hall]|[[e ->] (r & Hr & _)]].
  - unfold settle, extend, emit. cbn [fst snd collection connected events].
    split; [reflexivity|]. split.
    + rewrite !saved_ids_app, Hids, saved_ids_preamble.
      rewrite !saved_ids_verdict by (cbn; auto). by rewrite !app_nil_r.
    + rewrite !List.filter_app, Hquiet. by cbn.
  - unfold settle, extend. cbn [fst snd collection connected events].
    split; [reflexivity|]. split.
    + rewrite !saved_ids_app, Hids, saved_ids_preamble.
      change [ConsoleError "Error seeding database:" e; EvClose]
        with ([ConsoleError "Error seeding database:" e] ++ [EvClose]).
      rewrite saved_ids_app, !saved_ids_verdict by (cbn; auto).
      by rewrite !app_nil_r.
    + rewrite !List.filter_app, Hquiet. cbn.
      apply lookup_lt_Some in Hr. split; [discriminate|lia].
Qed.

(** X1. When the store is reached, the reply parses to the records [rs], and
    the embedding and the insertion go through for every one of them, the
    collection ends up holding one stored object for each record, in the
    order of the batch, each with the vector returned for its summary; every
    id is logged as saved, the run logs its completion, and no error is
    logged. *)
Theorem seed_all_succeed (w : World) (pre : list (gmap string json))
    (text : string) (rs : list FrontendPrinciple) :
  connect_ok w = true → ping_ok w = true → deleteMany_ok w = true →
  llm_invoke w prompt = Some text →
  json_of_text text ≫= parser_schema = Some rs →
  (∀ j r, rs !! j = Some r →
     is_Some (embedDocuments w j (createFrontendPrincipleSummary r)) ∧
     insertMany_ok w j = true) →
  ∃ vs,
    length vs = length rs ∧
    (∀ j r v, rs !! j = Some r → vs !! j = Some v →
       embedDocuments w j (createFrontendPrincipleSummary r) = Some v) ∧
    collection (seed w pre).2 = zip_with stored rs vs ∧
    saved_ids (events (seed w pre).2) = record_id <$> rs ∧
    List.filter is_console_error (events (seed w pre).2) = [] ∧
    List.filter is_completed (events (seed w pre).2) =
      [ConsoleLog "Database seeding completed" []].
Proof.
  intros Hc Hp Hd Hllm Hparse Hall.
  rewrite (seed_after_parse w pre text rs Hc Hp Hd Hllm Hparse), bind_run.
  match goal with |- context [for_of _ _ _ ?s0] =>
    destruct (for_of_run w rs 0 s0)
      as (res & vs & es & -> & Hlen & Hok & Hres & Hids & Hes)
  end.
  destruct Hres as [[-> Hfull]|[_ (r & Hr & Hfail)]].
  - assert (∀ f, (∀ ev, loop_event ev = true → f ev = false) →
                 List.filter f es = []) as Hnone.
    { intros f Hf. by apply loop_events_filter. }
    rewrite Hfull, take_ge in * by lia.
    exists vs. split; [exact Hfull|]. split.
    { intros j r v Hr Hv. by destruct (Hok j r v Hr Hv). }
    unfold settle, extend, emit. cbn [fst snd collection connected events].
    split; [reflexivity|]. split.
    { rewrite !saved_ids_app, Hids, saved_ids_preamble.
      rewrite !saved_ids_verdict by (cbn; auto). by rewrite !app_nil_r. }
    rewrite !List.filter_app, !Hnone; [by cbn| |];
      intros ev Hev; by apply loop_event_other in Hev as (? & ? & ? & ? & ?).
  - destruct (Hall _ r Hr) as [[v Hv] Hins]. cbn in Hfail.
    destruct Hfail; congruence.
Qed.

(** X8. [generateSyntheticData] calls the model exactly once, with the
    prompt, after logging that it starts, and touches neither the collection
    nor the connection. It fails with the model's error exactly when the
    model call fails, and returns the records [rs] exactly when the model's
    reply parses to them. *)
Theorem generate_asks_once (w : World) (s : Run) :
  collection (generateSyntheticData w s).2 = collection s ∧
  connected (generateSyntheticData w s).2 = connected s ∧
  events (generateSyntheticData w s).2 =
    events s ++
    [ConsoleLog "Generating synthetic frontend principles data..." [];
     EvInvoke prompt] ∧
  ((generateSyntheticData w s).1 = inl ModelError ↔ llm_invoke w prompt = None) ∧
  (∀ rs, (generateSyntheticData w s).1 = inr rs ↔
         ∃ text, llm_invoke w prompt = Some text ∧
                 json_of_text text ≫= parser_schema = Some rs).
Proof.
  destruct (llm_invoke w prompt) as [text|] eqn:Hllm.
  - rewrite (generate_run w text s Hllm). cbn zeta.
    destruct (json_of_text text ≫= parser_schema) as [rs0|] eqn:Hparse;
      cbn [fst snd extend collection connected events];
      rewrite app_nil_r; repeat split; try done.
    + intros [= <-]. eauto.
    + intros (t & [= <-] & Ht). congruence.
    + intros (t & [= <-] & Ht). congruence.
  - unfold generateSyntheticData. unfold_m. rewrite Hllm. cbn.
    rewrite <- app_assoc. repeat split; try done.
    intros (t & Ht & _). discriminate.
Qed.

(** ** What a run leaves in the collection *)

Lemma successful_writes_none (w : World) (k : nat) (es : list Event) :
  Forall (λ ev, is_insert ev = false) es → successful_writes w k es = [].
Proof.
  induction 1 as [|ev es Hev _ IH]; [reflexivity|].
  destruct ev; try discriminate; exact IH.
Qed.

Lemma successful_writes_skip (w : World) (k : nat) (e1 e2 : list Event) :
  Forall (λ ev, is_insert ev = false) e1 →
  successful_writes w k (e1 ++ e2) = successful_writes w k e2.
Proof.
  induction 1 as [|ev es Hev _ IH]; [reflexivity|].
  destruct ev; try discriminate; exact IH.
Qed.

Lemma successful_writes_tail (w : World) (e1 e2 : list Event) :
  Forall (λ ev, is_insert ev = false) e2 →
  ∀ k, successful_writes w k (e1 ++ e2) = successful_writes w k e1.
Proof.
  intros He2. induction e1 as [|ev e1 IH]; intros k.
  - by apply successful_writes_none.
  - destruct ev; cbn; rewrite ?IH; reflexivity.
Qed.

(** The loop stores exactly the documents of its insertion calls that went
    through: the insertion for the record at position [i] is the call number
    [i]. *)
Lemma for_of_writes (w : World) (rs : list FrontendPrinciple) :
  ∀ (i : nat) (s : Run),
  ∃ res docs es,
    for_of (save_record w) i (with_summary <$> rs) s = (res, extend s docs es) ∧
    docs = successful_writes w i es ∧
    Forall (λ ev, loop_event ev = true) es.
Proof.
  induction rs as [|x rs IH]; intros i s.
  - exists (inr tt), [], []. by rewrite extend_nil.
  - rewrite fmap_cons, for_of_cons, save_record_run.
    destruct (embedDocuments w i (pageContent (with_summary x))) as [v|].
    + cbn zeta. destruct (insertMany_ok w i) eqn:Eins.
      * match goal with |- context [for_of _ _ _ ?s1] =>
          destruct (IH (S i) s1) as (res & docs & es & -> & -> & Hes)
        end.
        rewrite extend_extend. eexists res, _, _. split; [reflexivity|].
        split; [cbn; by rewrite Eins|].
        apply Forall_app. split; [by repeat constructor|exact Hes].
      * eexists _, [], _. split; [reflexivity|].
        split; [cbn; by rewrite Eins|]. by repeat constructor.
    + eexists _, [], _. split; [reflexivity|].
      split; [reflexivity|]. by repeat constructor.
Qed.

Lemma loop_events_no_verdict (es : list Event) (verdict : Event) :
  Forall (λ ev, loop_event ev = true) es →
  is_insert verdict = false →
  ∀ w, successful_writes w 0 ((preamble ++ es) ++ [verdict; EvClose]) =
       successful_writes w 0 es.
Proof.
  intros Hes Hv w. rewrite successful_writes_tail.
  - by apply successful_writes_skip; repeat constructor.
  - by repeat constructor.
Qed.

(** C2 (amended). [seedDatabase] takes no mode. Once the store is reached,
    the deletion of every document of the collection is the first thing it
    asks of the store, before the model is called and before anything is
    inserted, and it is asked once. When the deletion goes through, the
    collection after the run is exactly the documents of this run's
    insertions that went through, in their order, whatever the collection
    held before; the outcome of the run does not depend on what it held, and
    after two runs in a row only the second run's documents remain. *)
Theorem seed_always_replaces (w : World) (pre : list (gmap string json)) :
  connect_ok w = true → ping_ok w = true →
  take 4 (events (seed w pre).2) =
    [ EvConnect; EvPing;
      ConsoleLog "Pinged your deployment. You successfully connected to MongoDB!" [];
      EvDeleteMany ] ∧
  List.filter is_delete (events (seed w pre).2) = [EvDeleteMany] ∧
  (deleteMany_ok w = true →
   collection (seed w pre).2 = successful_writes w 0 (events (seed w pre).2) ∧
   seed w pre = seed w [] ∧
   ∀ (w' : World) (pre' : list (gmap string json)),
     seed w (collection (seed w' pre').2) = seed w pre).
Proof.
  intros Hc Hp. split; [|split].
  - destruct (seed_trace w pre) as (es & verdict & -> & _).
    unfold reached. rewrite Hc, Hp. by destruct (deleteMany_ok w).
  - destruct (seed_trace w pre) as (es & verdict & -> & Hes & Hv & _).
    rewrite !List.filter_app, (loop_events_filter is_delete es);
      try exact Hes;
      try (intros ev Hev; apply loop_event_other in Hev as (? & ? & ? & ? & ?);
           assumption).
    assert (List.filter is_delete [verdict; EvClose] = []) as ->.
    { by destruct Hv as [[e ->]| ->]. }
    unfold reached. rewrite Hc, Hp. by destruct (deleteMany_ok w).
  - intros Hd.
    assert (∀ p, seed w p = seed w []) as Hindep.
    { intros p. unfold seed. rewrite !seedDatabase_settle, !seed_body_start.
      by rewrite Hc, Hp, Hd. }
    split; [|split; [apply Hindep|]].
    + unfold seed. rewrite seedDatabase_settle, seed_body_start, Hc, Hp, Hd.
      cbn zeta. destruct (llm_invoke w prompt) as [text|]; [|reflexivity].
      destruct (json_of_text text ≫= parser_schema) as [rs|]; [|reflexivity].
      rewrite bind_run.
      match goal with |- context [for_of _ _ _ ?s0] =>
        destruct (for_of_writes w rs 0 s0) as (res & docs & es & -> & -> & Hes)
      end.
      destruct res as [e|[]]; unfold settle, extend, emit;
        cbn [fst snd collection connected events].
      * by rewrite (loop_events_no_verdict es
                     (ConsoleError "Error seeding database:" e) Hes eq_refl w).
      * rewrite <- (app_assoc _ [_] [EvClose]). cbn [app].
        by rewrite (loop_events_no_verdict es
                     (ConsoleLog "Database seeding completed" []) Hes eq_refl w).
    + intros w' pre'. by rewrite (Hindep pre), Hindep.
Qed.

End Pipeline.

(** ** Stored documents and batches, read back *)

Lemma vector_json_inj (v v' : list Z) : vector_json v = vector_json v' → v = v'.
Proof.
  unfold vector_json. intros [= H]. revert v' H.
  induction v as [|x v IH]; intros [|y v'] H; try discriminate; [reflexivity|].
  rewrite !fmap_cons in H. injection H as -> H. f_equal. by apply IH.
Qed.

Lemma stored_embedding (r : FrontendPrinciple) (v : list Z) :
  stored r v !! "embedding" = Some (vector_json v).
Proof.
  unfold stored, stored_object. cbn [metadata pageContent with_summary].
  rewrite lookup_union_r by (apply spread_not_required; compute_done).
  by simplify_map_eq.
Qed.

Lemma stored_text (r : FrontendPrinciple) (v : list Z) :
  stored r v !! "embedding_text" = Some (JStr (createFrontendPrincipleSummary r)).
Proof.
  unfold stored, stored_object. cbn [metadata pageContent with_summary].
  rewrite lookup_union_r by (apply spread_not_required; compute_done).
  by simplify_map_eq.
Qed.

(** X6. A document that carries what the pipeline wrote for a record and a
    vector, whatever else it carries (the store adds an [_id] of its own),
    validates against the record schema to that record: the text and the
    vector written beside the record's properties disturb none of them. It
    holds the record's summary and the vector under the two keys, and it
    cannot be what the pipeline wrote for another record or another
    vector. *)
Theorem stored_round_trip (r : FrontendPrinciple) (v : list Z)
    (d : gmap string json) :
  stored r v ⊆ d →
  FrontendPrincipleSchema (JObj d) = Some r ∧
  d !! "embedding_text" = Some (JStr (createFrontendPrincipleSummary r)) ∧
  d !! "embedding" = Some (vector_json v) ∧
  (∀ r' v', stored r' v' ⊆ d → r' = r ∧ v' = v).
Proof.
  assert (∀ r v, stored r v ⊆ d →
                 FrontendPrincipleSchema (JObj d) = Some r) as Hback.
  { clear r v. intros r v Hsub. apply schema_Some.
    pose proof (schema_spread r) as Hr. apply schema_Some in Hr.
    destruct Hr as (? & ? & ? & ? & ? & ? & ? & ? & ?).
    assert (∀ k x, spread r !! k = Some x → d !! k = Some x) as Hin.
    { intros k x Hk. eapply lookup_weaken; [|exact Hsub].
      unfold stored, stored_object. cbn [metadata with_summary].
      by apply lookup_union_Some_l. }
    repeat split; by apply Hin. }
  intros Hsub. split; [by eapply Hback|]. split; [|split].
  - eapply lookup_weaken; [apply stored_text|exact Hsub].
  - eapply lookup_weaken; [apply stored_embedding|exact Hsub].
  - intros r' v' Hsub'. split.
    + pose proof (Hback r v Hsub) as H1. rewrite (Hback r' v' Hsub') in H1.
      congruence.
    + pose proof (lookup_weaken _ _ _ _ (stored_embedding r v) Hsub) as Hu.
      pose proof (lookup_weaken _ _ _ _ (stored_embedding r' v') Hsub') as Hu'.
      apply vector_json_inj. congruence.
Qed.

(** X7. A batch of records written as a JSON array of their objects parses
    back to the same batch, record for record and in the same order; so two
    different batches never have the same JSON. *)
Theorem batch_round_trip (rs : list FrontendPrinciple) :
  parser_schema (batch_json rs) = Some rs ∧
  (∀ rs', batch_json rs = batch_json rs' → rs = rs').
Proof.
  assert (∀ l, parser_schema (batch_json l) = Some l) as Hback.
  { intros l. unfold batch_json, parser_schema. apply mapM_Some.
    apply Forall2_fmap_l, Forall_Forall2_diag, Forall_forall.
    intros r _. apply schema_spread. }
  split; [apply Hback|].
  intros rs' Heq. pose proof (Hback rs) as H. rewrite Heq, Hback in H.
  congruence.
Qed.

(** X9. Validation reads the nine fields of the schema and nothing else: two
    candidates that agree on them are both rejected or both accepted, with
    the same record. Adding, changing or removing any other property of a
    candidate never changes the outcome. *)
Theorem schema_reads_required_fields_only (m1 m2 : gmap string json) :
  same_fields m1 m2 →
  FrontendPrincipleSchema (JObj m1) = FrontendPrincipleSchema (JObj m2).
Proof.
  intros H. unfold FrontendPrincipleSchema.
  rewrite (H "principle_id"), (H "name"), (H "description"), (H "keyConcepts"),
    (H "designGuidelines"), (H "commonPitfalls"), (H "bestPractices"),
    (H "relevantTechnologies"), (H "notes") by compute_done.
  reflexivity.
Qed.

(** X10. Joining with a separator: two non-empty lists joined as one give
    the two joined texts with one separator between them, so no separator is
    put before the first item or after the last. *)
Theorem join_app (sep : string) (l1 l2 : list string) :
  l1 ≠ [] → l2 ≠ [] →
  join sep (l1 ++ l2) = join sep l1 +:+ sep +:+ join sep l2.
Proof.
  intros H1 H2. destruct l2 as [|y l2]; [done|]. clear H2.
  induction l1 as [|x [|x' l1] IH]; [done| |].
  - reflexivity.
  - change ((x :: x' :: l1) ++ y :: l2) with (x :: x' :: (l1 ++ y :: l2)).
    rewrite !join_cons, !append_assoc. do 2 f_equal. by apply IH.
Qed.

(** ** Server start *)

(** X18. [startServer] keeps serving exactly when the connection and the
    ping both succeed; otherwise it logs one error and ends the process with
    code 1. The ping is tried only after a successful connection. Whatever
    happens, it does not close the connection, and it neither deletes nor
    inserts: the collection is as it was. *)
Theorem startServer_outcome (w : World) (s : Run) :
  ((startServer w s).1 = Serving ↔ connect_ok w = true ∧ ping_ok w = true) ∧
  ((startServer w s).1 ≠ Serving → (startServer w s).1 = Exited 1) ∧
  collection (startServer w s).2 = collection s ∧
  (connect_ok w = true → connected (startServer w s).2 = true) ∧
  ∃ es,
    events (startServer w s).2 = events s ++ es ∧
    List.filter is_close es = [] ∧
    List.filter is_delete es = [] ∧
    List.filter is_insert es = [] ∧
    es !! 1 = (if connect_ok w then Some EvPing
               else Some (ConsoleError "Error connecting to MongoDB 😡" ConnectError)) ∧
    length (List.filter is_console_error es) =
      (if connect_ok w && ping_ok w then 0 else 1).
Proof.
  unfold startServer, connect, ping, emit, throw, set_connected,
    mbind, mret, M_bind, M_ret.
  destruct (connect_ok w), (ping_ok w); cbn;
    (split; [split; [try discriminate; auto|intros [? ?]; congruence]|]);
    (split; [try done|]); (split; [reflexivity|]); (split; [try done|]);
    eexists; (split; [by rewrite <- !app_assoc|]); by cbn.
Qed.

(** ** Chat component *)

Lemma sendMessage_blank (st : ChatState) (net : FetchOutcome) :
  trim (input st) = "" → sendMessage st net = Alive st.
Proof. intros H. unfold sendMessage. by rewrite H. Qed.

(** The status of the response is never looked at. *)
Lemma sendMessage_ignores_status (st : ChatState) (s1 s2 : Z) (body : option json) :
  sendMessage st (FetchResolves s1 body) = sendMessage st (FetchResolves s2 body).
Proof. reflexivity. Qed.

(** A rejected request, or a body that is not JSON, reaches the [catch]
    block: the transcript keeps what it held and gains the user's message and
    the fallback message, and the component is usable again. *)
Lemma sendMessage_caught (st : ChatState) (net : FetchOutcome) :
  trim (input st) ≠ "" →
  net = FetchRejects ∨ (∃ status, net = FetchResolves status None) →
  sendMessage st net =
    Alive {| messages := messages st ++
               [ {| sender := user; text := Some (JStr (trim (input st))) |};
                 fallback_message ];
             input := ""; threadId := threadId st; isLoading := false |}.
Proof.
  intros Hne Hnet. unfold sendMessage.
  apply String.eqb_neq in Hne. rewrite Hne.
  destruct Hnet as [->|[status ->]]; unfold on_error, setIsLoading, append_message;
    cbn; by rewrite <- app_assoc.
Qed.

(** A response whose body is a JSON object without a [response] property is
    taken as a reply, whatever its status. The agent's message then has no
    text. *)
Lemma sendMessage_object_without_response
    (st : ChatState) (status : Z) (m : gmap string json) :
  trim (input st) ≠ "" → m !! "response" = None →
  ∃ st', sendMessage st (FetchResolves status (Some (JObj m))) = Alive st' ∧
         messages st' = messages st ++
           [ {| sender := user; text := Some (JStr (trim (input st))) |};
             {| sender := agent; text := None |} ] ∧
         usable st'.
Proof.
  intros Hne Hm. unfold sendMessage, append_reply, get_prop.
  apply String.eqb_neq in Hne. rewrite Hne, Hm.
  destruct (truthy (threadId st)); [|destruct (truthy (m !! "threadId"))];
    eexists; (split; [reflexivity|]); cbn; by rewrite <- app_assoc.
Qed.

(** In a conversation that has a thread id, a body that is JSON [null] makes
    the updater throw outside the [try]. *)
Lemma sendMessage_null_in_thread (st : ChatState) (status : Z) :
  trim (input st) ≠ "" → truthy (threadId st) = true →
  sendMessage st (FetchResolves status (Some JNull)) = RenderError.
Proof.
  intros Hne Ht. unfold sendMessage.
  apply String.eqb_neq in Hne. by rewrite Hne, Ht.
Qed.

(** C8 (code defect). The backend answers 500 with a JSON error body. The
    request did not fail and the body parses, so the [catch] block is not
    reached: the transcript keeps its messages and gains the user's message,
    but the message appended for the agent has an undefined text instead of
    the fallback message. *)
Theorem sendMessage_non_2xx_json_body :
  non_2xx 500 ∧
  sendMessage chatting (FetchResolves 500 (Some error_body)) =
    Alive {| messages := messages chatting ++
               [ {| sender := user; text := Some (JStr "what is consistency?") |};
                 {| sender := agent; text := None |} ];
             input := ""; threadId := Some (JStr "t-1"); isLoading := false |} ∧
  {| sender := agent; text := None |} ≠ fallback_message.
Proof.
  split; [right; lia|]. split; [vm_compute; reflexivity|discriminate].
Qed.


(** ** White space and the message that is sent *)

Lemma string_length_ind (P : string → Prop) :
  (∀ s, (∀ t, String.length t < String.length s → P t) → P s) → ∀ s, P s.
Proof.
  intros H s. induction (well_founded_ltof _ String.length s) as [s _ IH].
  apply H. exact IH.
Qed.

Lemma skip_space_shorter (s t : string) :
  skip_space s = Some t → String.length t < String.length s.
Proof.
  unfold skip_space. destruct s as [|a [|b [|c r]]]; try discriminate;
    repeat case_match; intros [= <-]; cbn; lia.
Qed.

Lemma trimStart_step (s : string) :
  trimStart s =
  match skip_space s with
  | Some t => trimStart t
  | None => s
  end.
Proof.
  destruct s as [|a r]; [reflexivity|]. cbn [trimStart skip_space].
  destruct (is_space a); [reflexivity|]. destruct r as [|b r]; [reflexivity|].
  destruct (is_nbsp a b); [reflexivity|]. destruct r as [|c r]; [reflexivity|].
  by destruct (is_wide_space a b c).
Qed.

Lemma all_space_step (s : string) :
  all_space s =
  match s with
  | EmptyString => true
  | String _ _ =>
      match skip_space s with
      | Some t => all_space t
      | None => false
      end
  end.
Proof.
  destruct s as [|a r]; [reflexivity|]. cbn [all_space skip_space].
  destruct (is_space a); [reflexivity|]. destruct r as [|b r]; [reflexivity|].
  destruct (is_nbsp a b); [reflexivity|]. destruct r as [|c r]; [reflexivity|].
  by destruct (is_wide_space a b c).
Qed.

(** What holds of the start of a text holds of the text with more after
    it. *)
Lemma skip_space_app (p t w : string) :
  skip_space p = Some t → skip_space (p +:+ w) = Some (t +:+ w).
Proof.
  unfold skip_space. destruct p as [|a [|b [|c r]]]; try discriminate;
    rewrite ?append_cons; repeat case_match; intros [= <-]; try reflexivity;
    try discriminate.
Qed.

Lemma trimStart_head (s : string) : head_is_space (trimStart s) = false.
Proof.
  induction s as [s IH] using string_length_ind.
  rewrite trimStart_step. destruct (skip_space s) as [t|] eqn:E.
  - apply IH. by apply skip_space_shorter.
  - unfold head_is_space. by rewrite E.
Qed.

Lemma trimStart_all_space (s : string) : all_space (trimStart s) = all_space s.
Proof.
  induction s as [s IH] using string_length_ind.
  rewrite trimStart_step, (all_space_step s).
  destruct s as [|a r]; [reflexivity|].
  destruct (skip_space (String a r)) as [t|] eqn:E.
  - apply IH. by apply skip_space_shorter.
  - by rewrite all_space_step, E.
Qed.

Lemma trimEnd_empty_iff (s : string) : trimEnd s = "" ↔ all_space s = true.
Proof.
  destruct s as [|c s]; [done|]. cbn [trimEnd].
  destruct (all_space (String c s)); [done|]. split; discriminate.
Qed.

Lemma trim_empty_iff (s : string) : trim s = "" ↔ all_space s = true.
Proof. unfold trim. by rewrite trimEnd_empty_iff, trimStart_all_space. Qed.

(** [trimEnd] cuts white space off the end, and nothing else. *)
Lemma trimEnd_cut (s : string) :
  ∃ w, s = trimEnd s +:+ w ∧ all_space w = true.
Proof.
  induction s as [|c s (w & Hs & Hw)]; [by exists ""|]. cbn [trimEnd].
  destruct (all_space (String c s)) eqn:E.
  - by exists (String c s).
  - exists w. split; [|exact Hw]. rewrite append_cons. by f_equal.
Qed.

Lemma trimEnd_head (s : string) :
  head_is_space s = false → head_is_space (trimEnd s) = false.
Proof.
  intros Hs. destruct (trimEnd_cut s) as (w & Hcut & _).
  unfold head_is_space in *.
  destruct (skip_space (trimEnd s)) as [t|] eqn:E; [|reflexivity].
  apply (skip_space_app _ _ w) in E. rewrite <- Hcut in E. by rewrite E in Hs.
Qed.

Lemma trimEnd_last (s : string) : last_is_space (trimEnd s) = false.
Proof.
  induction s as [|c s IH]; [reflexivity|]. cbn [trimEnd].
  destruct (all_space (String c s)) eqn:Hsp; [reflexivity|].
  cbn [last_is_space]. rewrite IH, orb_false_r.
  unfold is_one_space.
  destruct (skip_space (String c (trimEnd s))) as [[|k t]|] eqn:E; try reflexivity.
  destruct (trimEnd_cut s) as (w & Hcut & Hw).
  apply (skip_space_app _ _ w) in E. rewrite append_cons, <- Hcut in E.
  rewrite all_space_step, E in Hsp. change ("" +:+ w) with w in Hsp.
  congruence.
Qed.

Lemma trim_trimmed (s : string) : trim s ≠ "" → trimmed (trim s).
Proof.
  intros Hne. split; [exact Hne|]. unfold trim. split.
  - apply trimEnd_head, trimStart_head.
  - apply trimEnd_last.
Qed.

(** What a send that takes place does to the state, in every case that does
    not end in a render error. *)
Lemma sendMessage_sent (st st' : ChatState) (net : FetchOutcome) :
  trim (input st) ≠ "" → sendMessage st net = Alive st' →
  ∃ reply,
    renderable reply = true ∧
    messages st' = messages st ++
      [ {| sender := user; text := Some (JStr (trim (input st))) |};
        {| sender := agent; text := reply |} ] ∧
    input st' = "" ∧ isLoading st' = false ∧
    (threadId st' = threadId st ∨
     (truthy (threadId st) = false ∧ truthy (threadId st') = true)).
Proof.
  intros Hne. unfold sendMessage. apply String.eqb_neq in Hne. rewrite Hne.
  unfold on_error, append_reply.
  destruct net as [|status [data|]].
  - intros [= <-]. cbn. rewrite <- app_assoc. eexists. split; [|eauto 10]. done.
  - destruct (truthy (threadId st)) eqn:Ht.
    + destruct (get_prop data "response") as [reply|]; [|discriminate].
      destruct (renderable reply) eqn:Hr; [|discriminate].
      intros [= <-]. cbn. rewrite <- app_assoc. eauto 10.
    + destruct (get_prop data "threadId") as [tid|].
      * destruct (get_prop data "response") as [reply|]; [|discriminate].
        destruct (renderable reply) eqn:Hr; [|discriminate].
        destruct (truthy tid) eqn:Htid; intros [= <-]; cbn;
          rewrite <- app_assoc; eauto 10.
      * intros [= <-]. cbn. rewrite <- app_assoc.
        eexists. split; [|eauto 10]. done.
  - intros [= <-]. cbn. rewrite <- app_assoc. eexists. split; [|eauto 10]. done.
Qed.

(** A field that holds one no-break space holds white space only: nothing is
    sent. *)
Lemma sendMessage_no_break_space (net : FetchOutcome) :
  sendMessage (setInput no_break_space initial) net =
  Alive (setInput no_break_space initial).
Proof. reflexivity. Qed.

(** A reply whose [response] is an object cannot be rendered, on the first
    turn as on any other. *)
Lemma sendMessage_object_response :
  sendMessage typing (FetchResolves 200 (Some object_reply)) = RenderError.
Proof. vm_compute. reflexivity. Qed.

(** X11. A send changes nothing exactly when the field holds only white
    space (or nothing): no message is appended and no request is made.
    Any other input changes the state. *)
Theorem sendMessage_skips_blank (st : ChatState) (net : FetchOutcome) :
  sendMessage st net = Alive st ↔ all_space (input st) = true.
Proof.
  split.
  - intros Hsame. destruct (all_space (input st)) eqn:Hsp; [reflexivity|].
    assert (trim (input st) ≠ "") as Hne.
    { intros H. apply trim_empty_iff in H. congruence. }
    destruct (sendMessage_sent st st net Hne Hsame) as (reply & _ & Hm & _).
    apply (f_equal length) in Hm. rewrite length_app in Hm. cbn in Hm. lia.
  - intros Hsp. apply sendMessage_blank. by apply trim_empty_iff.
Qed.

(** X12. A send with anything else in the field, if it does not end in a
    render error, appends exactly one turn to the transcript: the user's
    message, whose text is the input without its surrounding white space,
    then one message of the agent, with a text that can be rendered.
    Everything the transcript held stays, the field is emptied and the
    component is no longer loading. *)
Theorem sendMessage_appends_a_turn (st st' : ChatState) (net : FetchOutcome) :
  all_space (input st) = false → sendMessage st net = Alive st' →
  ∃ t reply,
    t = trim (input st) ∧ trimmed t ∧ renderable reply = true ∧
    messages st' = messages st ++
      [ {| sender := user; text := Some (JStr t) |};
        {| sender := agent; text := reply |} ] ∧
    input st' = "" ∧ usable st'.
Proof.
  intros Hsp Hsend.
  assert (trim (input st) ≠ "") as Hne.
  { intros H. apply trim_empty_iff in H. congruence. }
  destruct (sendMessage_sent st st' net Hne Hsend)
    as (reply & Hr & Hm & Hi & Hl & _).
  exists (trim (input st)), reply.
  split; [reflexivity|]. split; [by apply trim_trimmed|]. by repeat split.
Qed.


(** X14. In a conversation without a thread id, a reply that carries one,
    and whose [response] can be rendered, is adopted: the state holds the
    reply's thread id afterwards, and the agent's message shows the reply's
    [response]. *)
Theorem sendMessage_adopts_thread (st : ChatState) (status : Z)
    (m : gmap string json) (t : json) :
  all_space (input st) = false → truthy (threadId st) = false →
  m !! "threadId" = Some t → truthy (Some t) = true →
  renderable (m !! "response") = true →
  ∃ st', sendMessage st (FetchResolves status (Some (JObj m))) = Alive st' ∧
         threadId st' = Some t ∧
         last (messages st') = Some {| sender := agent; text := m !! "response" |}.
Proof.
  intros Hsp Hno Hm Ht Hr.
  assert (trim (input st) ≠ "") as Hne.
  { intros H. apply trim_empty_iff in H. congruence. }
  unfold sendMessage, append_reply, get_prop.
  apply String.eqb_neq in Hne. rewrite Hne, Hno, Hm, Ht, Hr.
  eexists. split; [reflexivity|]. cbn. split; [reflexivity|].
  by rewrite last_snoc.
Qed.

(** X15. A send ends in a render error in two cases only, both with
    something to send and a response whose body is JSON: the conversation
    already has a thread id and the body is the value [null], whose
    [response] the updater cannot read; or the body has a [response] that
    cannot be rendered, a plain object or an array that holds one. With a
    body [null] on the first turn of a conversation it does not: the error
    is caught and the fallback message is shown. *)
Theorem sendMessage_render_error_iff (st : ChatState) (net : FetchOutcome) :
  sendMessage st net = RenderError ↔
  all_space (input st) = false ∧
  ∃ status data,
    net = FetchResolves status (Some data) ∧
    ((data = JNull ∧ truthy (threadId st) = true) ∨
     ∃ m, data = JObj m ∧ renderable (m !! "response") = false).
Proof.
  split.
  - destruct (all_space (input st)) eqn:Hsp.
    { apply trim_empty_iff in Hsp. by rewrite (sendMessage_blank st net Hsp). }
    assert (trim (input st) ≠ "") as Hne.
    { intros H. apply trim_empty_iff in H. congruence. }
    unfold sendMessage, on_error, append_reply.
    apply String.eqb_neq in Hne. rewrite Hne.
    destruct net as [|status [data|]]; [discriminate| |discriminate].
    intros Herr. split; [reflexivity|]. exists status, data.
    split; [reflexivity|].
    destruct data as [|b|n|t|l|m]; cbn in Herr;
      try (destruct (truthy (threadId st)); discriminate).
    + left. split; [reflexivity|].
      by destruct (truthy (threadId st)).
    + right. exists m. split; [reflexivity|].
      destruct (renderable (m !! "response")) eqn:Hr; [|reflexivity].
      destruct (truthy (threadId st)); [discriminate|].
      destruct (truthy (m !! "threadId")); discriminate.
  - intros (Hsp & status & data & -> & Hcase).
    assert (trim (input st) ≠ "") as Hne.
    { intros H. apply trim_empty_iff in H. congruence. }
    destruct Hcase as [[-> Ht]|(m & -> & Hr)].
    + by apply sendMessage_null_in_thread.
    + unfold sendMessage, append_reply, get_prop.
      apply String.eqb_neq in Hne. rewrite Hne, Hr.
      destruct (truthy (threadId st)); [reflexivity|].
      by destruct (truthy (m !! "threadId")).
Qed.

Lemma turns_snoc (ms : list ChatMessage) (u a : ChatMessage) :
  sender u = user → (∃ t, text u = Some (JStr t) ∧ trimmed t) →
  sender a = agent →
  (turns ms → turns (ms ++ [u; a])) ∧
  (∀ x, turns (x :: ms) → turns (x :: ms ++ [u; a])).
Proof.
  intros Hu Ht Ha. induction ms as [|y ms [IH1 IH2]].
  - split; [intros _; cbn; auto|]. intros x [].
  - split.
    + intros H. apply (IH2 y H).
    + intros x (Hx & Htx & Hy & Hrest). cbn. repeat split; auto.
Qed.

(** What holds between two events of a session. *)
Lemma handle_keeps_turns (st st' : ChatState) (ev : UIEvent) :
  turns (messages st) → isLoading st = false → handle st ev = Alive st' →
  turns (messages st') ∧ isLoading st' = false.
Proof.
  intros Hturns Hload.
  assert (∀ net, sendMessage st net = Alive st' →
                 turns (messages st') ∧ isLoading st' = false) as Hsend.
  { intros net Hs. destruct (all_space (input st)) eqn:Hsp.
    - apply trim_empty_iff in Hsp.
      rewrite (sendMessage_blank st net Hsp) in Hs. by injection Hs as <-.
    - assert (trim (input st) ≠ "") as Hne.
      { intros H. apply trim_empty_iff in H. congruence. }
      destruct (sendMessage_sent st st' net Hne Hs)
        as (reply & _ & -> & _ & Hl & _).
      split; [|exact Hl].
      apply turns_snoc; auto. exists (trim (input st)).
      split; [reflexivity|]. by apply trim_trimmed. }
  destruct ev as [value|key net|net]; cbn.
  - intros [= <-]. by cbn.
  - destruct (String.eqb key "Enter"); [apply Hsend|]. by intros [= <-].
  - rewrite Hload. apply Hsend.
Qed.

(** X16. However a session goes (any sequence of typing, key presses and
    clicks, each request played to its end), as long as it has not ended in a
    render error the transcript is a sequence of whole turns, a user's
    trimmed and non-empty message followed by one message of the agent, and
    the component is not left loading. *)
Theorem interact_keeps_turns (evs : list UIEvent) (st : ChatState) :
  interact initial evs = Alive st →
  turns (messages st) ∧ isLoading st = false.
Proof.
  assert (∀ evs s, turns (messages s) → isLoading s = false →
                   interact s evs = Alive st →
                   turns (messages st) ∧ isLoading st = false) as Hgen.
  { clear evs. induction evs as [|ev evs IH]; intros s Ht Hl; cbn.
    - by intros [= <-].
    - destruct (handle s ev) as [s'|] eqn:Hh; [|discriminate].
      destruct (handle_keeps_turns s s' ev Ht Hl Hh) as [Ht' Hl'].
      by apply IH. }
  by apply Hgen.
Qed.



(** ** The properties at concrete runs *)

Lemma stub_three_records :
  stub_json_of_text "three records" ≫= parser_schema = Some three_records.
Proof. vm_compute. reflexivity. Qed.

Lemma seed_stops_at_first_failure_witness :
  collection
    (seed stub_format_instructions stub_json_of_text
       (failing_at 1 (Some "three records")) [unrelated]).2 =
  [stored (with_id "p1") (hash (createFrontendPrincipleSummary (with_id "p1")))].
Proof.
  pose proof (seed_stops_at_first_failure stub_format_instructions
                stub_json_of_text (failing_at 1 (Some "three records"))
                [unrelated] "three records" three_records
                [hash (createFrontendPrincipleSummary (with_id "p1"))]
                eq_refl eq_refl eq_refl eq_refl stub_three_records) as H.
  destruct H as (_ & H & _).
  - cbn. lia.
  - intros [|j] r v Hr Hv; [|destruct j; discriminate].
    injection Hr as <-. injection Hv as <-. split; reflexivity.
  - exists (with_id "p2"). split; [reflexivity|]. left. reflexivity.
  - exact H.
Defined.

(** C1 as stated fails: of three records whose second cannot be embedded,
    only the first is stored. The third is never embedded nor inserted,
    although both calls would have succeeded for it. *)
Lemma seed_failure_aborts_the_rest :
  let w := failing_at 1 (Some "three records") in
  let final := (seed stub_format_instructions stub_json_of_text w []).2 in
  stub_json_of_text "three records" ≫= parser_schema = Some three_records ∧
  embedDocuments w 2 (createFrontendPrincipleSummary (with_id "p3")) =
    Some (hash (createFrontendPrincipleSummary (with_id "p3"))) ∧
  insertMany_ok w 2 = true ∧
  (seed stub_format_instructions stub_json_of_text w []).1 = inr tt ∧
  (λ d : gmap string json, d !! "principle_id") <$> collection final =
    [Some (JStr "p1")] ∧
  length (List.filter is_embed (events final)) = 2 ∧
  length (List.filter is_insert (events final)) = 1.
Proof.
  cbv zeta. split; [exact stub_three_records|].
  repeat (split; [vm_compute; reflexivity|]). vm_compute. reflexivity.
Qed.

Lemma seed_always_replaces_witness :
  collection
    (seed stub_format_instructions stub_json_of_text
       (replying (Some "three records")) [unrelated]).2 =
  successful_writes (replying (Some "three records")) 0
    (events
       (seed stub_format_instructions stub_json_of_text
          (replying (Some "three records")) [unrelated]).2).
Proof.
  exact (proj1
           (proj2 (proj2
                     (seed_always_replaces stub_format_instructions
                        stub_json_of_text (replying (Some "three records"))
                        [unrelated] eq_refl eq_refl))
              eq_refl)).
Defined.

(** C2 as stated fails: there is no append mode. Two runs in a row over a
    collection that held one unrelated document leave the three documents of
    the second run, not the seven the specification expects of appending. *)
Lemma seed_twice_keeps_only_the_last_run :
  let w := replying (Some "three records") in
  let first := (seed stub_format_instructions stub_json_of_text w [unrelated]).2 in
  let second :=
    (seed stub_format_instructions stub_json_of_text w (collection first)).2 in
  length (collection first) = 3 ∧
  length (collection second) = 3 ∧
  collection second ≠
    spec_append_twice [unrelated] (collection first) (collection second).
Proof.
  cbv zeta. split; [vm_compute; reflexivity|]. split; [vm_compute; reflexivity|].
  intros H. apply (f_equal length) in H. vm_compute in H. discriminate.
Qed.

Lemma stub_reply_unparseable :
  unparseable stub_json_of_text "one good, one bad".
Proof.
  right. eexists. split; [reflexivity|]. right. eexists. split; [reflexivity|].
  apply Exists_cons_tl, Exists_cons_hd. exact schema_no_coercion.
Qed.

Lemma generation_fails_iff_unparseable_witness :
  collection
    (seed stub_format_instructions stub_json_of_text
       (replying (Some "one good, one bad")) [unrelated]).2 = [].
Proof.
  pose proof (generation_fails_iff_unparseable stub_format_instructions
                stub_json_of_text (replying (Some "one good, one bad"))
                "one good, one bad" (start []) eq_refl) as (_ & _ & H).
  exact (proj1 (H stub_reply_unparseable eq_refl eq_refl eq_refl [unrelated])).
Defined.

(** C4 as stated fails: a reply that is the empty array parses, generation
    succeeds with an empty batch, and the run completes without an error. *)
Lemma generation_accepts_empty_array :
  let w := replying (Some "no records") in
  let final := (seed stub_format_instructions stub_json_of_text w [unrelated]).2 in
  stub_json_of_text "no records" = Some (JArr []) ∧
  (generateSyntheticData stub_format_instructions stub_json_of_text w (start [])).1
    = inr [] ∧
  List.filter is_console_error (events final) = [] ∧
  last (removelast (events final)) =
    Some (ConsoleLog "Database seeding completed" []).
Proof.
  cbv zeta. repeat (split; [vm_compute; reflexivity|]). vm_compute. reflexivity.
Qed.

Lemma array_is_all_or_nothing_witness :
  parser_parse stub_json_of_text "one good, one bad" (start []) =
  (inl OutputParserException, start []).
Proof.
  pose proof (array_is_all_or_nothing stub_json_of_text "one good, one bad"
                [JObj (spread (with_id "p1")); number_as_name] (start [])
                eq_refl) as (_ & H).
  apply H, Exists_cons_tl, Exists_cons_hd. exact schema_no_coercion.
Defined.

(** C5 as stated fails: of two elements, the first a valid record and the
    second not, none is returned; the parse fails as a whole and the run
    stores nothing. *)
Lemma invalid_sibling_rejects_the_batch :
  stub_json_of_text "one good, one bad" =
    Some (JArr [JObj (spread (with_id "p1")); number_as_name]) ∧
  FrontendPrincipleSchema (JObj (spread (with_id "p1"))) = Some (with_id "p1") ∧
  FrontendPrincipleSchema number_as_name = None ∧
  parser_parse stub_json_of_text "one good, one bad" (start []) =
    (inl OutputParserException, start []) ∧
  collection
    (seed stub_format_instructions stub_json_of_text
       (replying (Some "one good, one bad")) []).2 = [].
Proof.
  split; [reflexivity|].
  repeat (split; [vm_compute; reflexivity|]). vm_compute. reflexivity.
Qed.

Lemma failed_generation_leaves_collection_empty_witness :
  collection
    (seed stub_format_instructions stub_json_of_text (replying None) [unrelated]).2
  = [].
Proof.
  destruct (failed_generation_leaves_collection_empty stub_format_instructions
              stub_json_of_text (replying None) [unrelated]
              eq_refl eq_refl eq_refl (or_introl eq_refl))
    as (e & _ & ->).
  reflexivity.
Defined.

Lemma seed_all_succeed_witness :
  ∃ vs,
    length vs = 3 ∧
    collection
      (seed stub_format_instructions stub_json_of_text
         (replying (Some "three records")) [unrelated]).2 =
    zip_with stored three_records vs.
Proof.
  destruct (seed_all_succeed stub_format_instructions stub_json_of_text
              (replying (Some "three records")) [unrelated]
              "three records" three_records
              eq_refl eq_refl eq_refl eq_refl stub_three_records)
    as (vs & Hlen & _ & Hc & _).
  - intros j r _. split; [by eexists|reflexivity].
  - exists vs. split; [exact Hlen|exact Hc].
Defined.

Lemma seed_stores_a_prefix_witness :
  ∃ vs,
    (length vs ≤ 3)%nat ∧
    collection
      (seed stub_format_instructions stub_json_of_text
         (failing_at 1 (Some "three records")) [unrelated]).2 =
    zip_with stored (take (length vs) three_records) vs.
Proof.
  destruct (seed_stores_a_prefix stub_format_instructions stub_json_of_text
              (failing_at 1 (Some "three records")) [unrelated]
              "three records" three_records
              eq_refl eq_refl eq_refl eq_refl stub_three_records)
    as (vs & Hlen & _ & Hc & _).
  exists vs. split; [exact Hlen|exact Hc].
Defined.

Lemma seed_store_unreachable_witness :
  collection
    (seed stub_format_instructions stub_json_of_text store_down [unrelated]).2 =
  [unrelated].
Proof.
  exact (proj1 (seed_store_unreachable stub_format_instructions
                  stub_json_of_text store_down [unrelated] eq_refl)).
Defined.

Lemma with_extra_key_same_fields :
  same_fields with_extra_key (spread (with_id "p1")).
Proof.
  intros k Hk. unfold with_extra_key. apply lookup_insert_ne.
  intros <-. revert Hk. compute_done.
Qed.

Lemma schema_reads_required_fields_only_witness :
  FrontendPrincipleSchema (JObj with_extra_key) =
  FrontendPrincipleSchema (JObj (spread (with_id "p1"))).
Proof.
  exact (schema_reads_required_fields_only with_extra_key
           (spread (with_id "p1")) with_extra_key_same_fields).
Defined.

Lemma join_app_witness :
  join ", " (["A"; "B"] ++ ["C"]) = join ", " ["A"; "B"] +:+ ", " +:+ join ", " ["C"].
Proof. apply join_app; discriminate. Defined.

Lemma sendMessage_appends_a_turn_witness :
  ∃ st', sendMessage typing FetchRejects = Alive st' ∧
         input st' = "" ∧ usable st'.
Proof.
  eexists. split; [reflexivity|].
  destruct (sendMessage_appends_a_turn typing _ FetchRejects eq_refl eq_refl)
    as (t & reply & _ & _ & _ & _ & Hi & Hu).
  split; [exact Hi|exact Hu].
Defined.


Lemma sendMessage_adopts_thread_witness :
  ∃ st', sendMessage typing (FetchResolves 200 (Some (JObj reply_fields)))
           = Alive st' ∧
         threadId st' = Some (JStr "t-2").
Proof.
  destruct (sendMessage_adopts_thread typing 200 reply_fields (JStr "t-2")
              eq_refl eq_refl eq_refl eq_refl eq_refl) as (st' & Hs & Ht & _).
  exists st'. split; [exact Hs|exact Ht].
Defined.

Lemma interact_keeps_turns_witness :
  ∃ st, interact initial [Change " why? "; KeyDown "Enter" FetchRejects]
          = Alive st ∧
        turns (messages st).
Proof.
  eexists. split; [reflexivity|].
  exact (proj1 (interact_keeps_turns
                  [Change " why? "; KeyDown "Enter" FetchRejects] _ eq_refl)).
Defined.


Lemma with_object_id_holds_stored :
  stored (with_id "p1") [1; 2]%Z ⊆ with_object_id.
Proof.
  unfold with_object_id. apply insert_subseteq. vm_compute. reflexivity.
Qed.

Lemma stored_round_trip_witness :
  FrontendPrincipleSchema (JObj with_object_id) = Some (with_id "p1").
Proof.
  exact (proj1 (stored_round_trip (with_id "p1") [1; 2]%Z with_object_id
                  with_object_id_holds_stored)).
Defined.
